(** * BridgeFacile V2: the arbitration viewer (law list, law viewer, tab page)

    A shallow embedding of the React components of the front end
    (CodeLaws.jsx, RncArticles.jsx, LawViewer.jsx, ArbitragePage.jsx) and of
    the hosted store they query, with the properties of the breadcrumb
    navigation, the document loader and the list views. *)

From stdpp Require Import base option list strings sorting pretty.
From Stdlib Require Import ZArith Lia Ascii.

Local Open Scope string_scope.
Local Open Scope list_scope.
Local Open Scope Z_scope.

(** ** JavaScript values and array primitives used by the components *)

Module Js.

(** The errors that travel through [throw] / [catch] in the components:
    the error object of a store response, and the TypeError raised by a
    property read on [undefined]. *)
Inductive Error : Type :=
| PostgrestError (code message : string)
| TypeError (message : string).

(** A line written by [console.log] (a text and an optional length) or by
    [console.error] (a text and the error caught). *)
Inductive ConsoleLine : Type :=
| Log (text : string) (value : option nat)
| Err (text : string) (e : Error).

(** Truthiness of a value that is [null] or a string. *)
Definition truthy (v : option string) : bool :=
  match v with
  | None => false
  | Some s => negb (bool_decide (s = ""))
  end.

(** [data || []]. *)
Definition or_empty {A} (data : option (list A)) : list A :=
  default [] data.

(** [data?.length]. *)
Definition opt_length {A} (data : option (list A)) : option nat :=
  length <$> data.

(** The clamping of a relative index in Array.prototype.slice. *)
Definition relative (len k : Z) : Z :=
  if k <? 0 then Z.max (len + k) 0 else Z.min k len.

(** [arr.slice(start, end)]. *)
Definition slice {A} (arr : list A) (start end_ : Z) : list A :=
  let len := Z.of_nat (length arr) in
  let k := relative len start in
  let final := relative len end_ in
  take (Z.to_nat (final - k)) (drop (Z.to_nat k) arr).

(** [arr[index]]; [None] is [undefined]. *)
Definition index {A} (arr : list A) (i : Z) : option A :=
  if i <? 0 then None else arr !! Z.to_nat i.

(** [[...prev, x]]. *)
Definition spread_push {A} (prev : list A) (x : A) : list A :=
  prev ++ [x].

End Js.

(** ** Statements that update component state and may throw *)

Module Eff.

Inductive Completion (A : Type) : Type :=
| Normal (a : A)
| Thrown (e : Js.Error).
Arguments Normal {A} a.
Arguments Thrown {A} e.

(** A statement run on a component state [S]. *)
Definition Action (S A : Type) : Type := S → Completion A * S.

Definition ret {S A} (a : A) : Action S A := λ s, (Normal a, s).

Definition throw {S A} (e : Js.Error) : Action S A := λ s, (Thrown e, s).

Definition bind {S A B} (m : Action S A) (k : A → Action S B) : Action S B :=
  λ s, match m s with
       | (Normal a, s') => k a s'
       | (Thrown e, s') => (Thrown e, s')
       end.

(** A state setter. *)
Definition modify {S} (f : S → S) : Action S unit := λ s, (Normal tt, f s).

Definition gets {S A} (f : S → A) : Action S A := λ s, (Normal (f s), s).

(** [try { body } catch (error) { handler } finally { final }]: the handler
    runs on a throw of the body, the final block runs on every path, and a
    throw of the final block replaces the completion reached before it. *)
Definition try_catch_finally {S A}
    (body : Action S A) (handler : Js.Error → Action S A)
    (final : Action S unit) : Action S A :=
  λ s,
    let '(c1, s1) := body s in
    let '(c2, s2) := match c1 with
                     | Normal a => (Normal a, s1)
                     | Thrown e => handler e s1
                     end in
    let '(c3, s3) := final s2 in
    match c3 with
    | Normal _ => (c2, s3)
    | Thrown e => (Thrown e, s3)
    end.

(** [if (error) throw error]. *)
Definition throw_if {S} (error : option Js.Error) : Action S unit :=
  match error with
  | Some e => throw e
  | None => ret tt
  end.

(** The state reached by a statement. *)
Definition exec {S A} (m : Action S A) (s : S) : S := (m s).2.

(** The completion of a statement. *)
Definition completion {S A} (m : Action S A) (s : S) : Completion A := (m s).1.

End Eff.

Import Eff.

Notation "x <- m ;; k" := (Eff.bind m (λ x, k))
  (at level 100, m at next level, right associativity, only parsing).
Notation "m ;; k" := (Eff.bind m (λ _, k))
  (at level 100, right associativity, only parsing).

(** ** The hosted store *)

Module Store.

(** Modelled from the spec: a row of the table [code_laws], whose DDL is not
    among the schema files. A document has a number (the ordering key,
    stored as text), a title, a page and a nullable content; CodeLaws.jsx
    also reads the row key [id] and [section]. *)
Record Law : Type := mkLaw {
  law_key : Z;
  law_number : string;
  law_title : string;
  law_section : string;
  law_page : string;
  law_content : option string;
}.

(** Modelled from the spec: a row of the table [rnc_articles], the same
    document in the other hierarchy. *)
Record Article : Type := mkArticle {
  article_key : Z;
  article_number : string;
  article_title : string;
  article_page : string;
  article_content : option string;
}.

(** Modelled from the spec: a row of the table [cross_references], a
    directed edge from (from_type, from_id) to (to_type, to_id) with an
    optional context. *)
Record CrossReference : Type := mkCrossReference {
  from_type : string;
  from_id : string;
  to_type : string;
  to_id : string;
  context : option string;
}.

Global Instance Law_eq_dec : EqDecision Law.
Proof. solve_decision. Defined.
Global Instance Article_eq_dec : EqDecision Article.
Proof. solve_decision. Defined.
Global Instance CrossReference_eq_dec : EqDecision CrossReference.
Proof. solve_decision. Defined.

(** The [{ data, error }] object every query resolves to. *)
Record Response (A : Type) : Type := mkResponse {
  data : option A;
  error : option Js.Error;
}.
Arguments mkResponse {A} data error.
Arguments data {A} r.
Arguments error {A} r.

Definition resolved {A} (a : A) : Response A := mkResponse (Some a) None.
Definition failed {A} (e : Js.Error) : Response A := mkResponse None (Some e).

(** The four queries the components send through the [supabase] client:
    - [law_by_number n]:
      [from('code_laws').select('*').eq('law_number', n).single()]
    - [references_from t n]:
      [from('cross_references').select('*').eq('from_type', t).eq('from_id', n)]
    - [laws_ordered e]: [from('code_laws').select('*').order(e)]
    - [articles_ordered e]: [from('rnc_articles').select('*').order(e)] *)
Record Client : Type := mkClient {
  law_by_number : string → Response Law;
  references_from : string → string → Response (list CrossReference);
  laws_ordered : string → Response (list Law);
  articles_ordered : string → Response (list Article);
}.

(** *** A reachable store answering from its tables

    Modelled from the spec: the store query interface (row-select by table,
    optional ordering key, optional equality filter), answered the way the
    hosted PostgreSQL service answers it. *)

Record Database : Type := mkDatabase {
  code_laws : list Law;
  rnc_articles : list Article;
  cross_references : list CrossReference;
}.

(** [.single()]: the result must be exactly one row, otherwise the response
    carries an error and no data. *)
Definition single {A} (rows : list A) : Response A :=
  match rows with
  | [row] => resolved row
  | _ => failed (Js.PostgrestError "PGRST116"
                   "JSON object requested, multiple (or no) rows returned")
  end.

Definition digit (c : ascii) : option Z :=
  let n := Z.of_nat (nat_of_ascii c) in
  if (48 <=? n) && (n <=? 57) then Some (n - 48) else None.

(** The blanks the integer input routine skips: space, tab, line feed,
    vertical tab, form feed, carriage return. *)
Definition is_space (c : ascii) : bool :=
  let n := Z.of_nat (nat_of_ascii c) in
  (n =? 32) || ((9 <=? n) && (n <=? 13)).

Fixpoint skip_spaces (s : string) : string :=
  match s with
  | String c rest => if is_space c then skip_spaces rest else s
  | EmptyString => EmptyString
  end.

(** The longest run of decimal digits at the head of [s], as a number, with
    what follows it; [seen] tells whether a digit has been read. *)
Fixpoint digits (acc : Z) (seen : bool) (s : string) : option (Z * string) :=
  match s with
  | String c rest =>
      match digit c with
      | Some d => digits (10 * acc + d) true rest
      | None => if seen then Some (acc, s) else None
      end
  | EmptyString => if seen then Some (acc, EmptyString) else None
  end.

(** The syntax of a decimal integer: blanks, an optional sign, at least one
    digit, blanks. *)
Definition parse_integer (s : string) : option Z :=
  let '(negative, unsigned) :=
    match skip_spaces s with
    | String "-" rest => (true, rest)
    | String "+" rest => (false, rest)
    | rest => (false, rest)
    end in
  '(n, rest) ← digits 0 false unsigned;
  match skip_spaces rest with
  | EmptyString => Some (if negative : bool then - n else n)
  | _ => None
  end.

(** The type [integer] holds 32 bits. *)
Definition in_integer_range (n : Z) : bool :=
  (- 2 ^ 31 <=? n) && (n <=? 2 ^ 31 - 1).

(** The cast [text::integer] of a decimal number: the syntax above, and a
    value that fits the type. *)
Definition to_integer (s : string) : option Z :=
  n ← parse_integer s;
  if in_integer_range n then Some n else None.

(** The error of a cast that fails: a number too large for the type, or a
    text that is not a number. *)
Definition cast_error (s : string) : Js.Error :=
  match parse_integer s with
  | Some _ =>
      Js.PostgrestError "22003" "value is out of range for type integer"
  | None => Js.PostgrestError "22P02" "invalid input syntax for type integer"
  end.

(** Two numbers stored as text, compared as the integers they denote. *)
Definition numerically_le (a b : string) : Prop :=
  match to_integer a, to_integer b with
  | Some x, Some y => x ≤ y
  | _, _ => False
  end.

Global Instance numerically_le_dec : RelDecision numerically_le.
Proof.
  intros a b. unfold numerically_le.
  destruct (to_integer a), (to_integer b); apply _.
Defined.

(** Rows compared by a key. *)
Definition by_key {A K} (R : relation K) (key : A → K) : relation A :=
  λ a b, R (key a) (key b).

Global Instance by_key_dec {A K} (R : relation K) (key : A → K)
  `{!RelDecision R} : RelDecision (by_key R key).
Proof. intros a b. unfold by_key. apply _. Defined.

(** ORDER BY on a text column: the order of the strings. *)
Definition order_text {A} (key : A → string) (rows : list A) : list A :=
  merge_sort (by_key String.le key) rows.

(** ORDER BY on the integer cast of a text column; the cast fails on a
    value that is not a number, and then so does the query. *)
Definition order_integer {A} (key : A → string) (rows : list A)
    : option (list A) :=
  keyed ← mapM (λ row, (λ n, (n, row)) <$> to_integer (key row)) rows;
  Some ((merge_sort (by_key Z.le fst) keyed).*2).

(** The response to a query whose cast fails on one of the rows. *)
Definition invalid_integer {A B} (key : A → string) (rows : list A)
    : Response B :=
  match filter (λ row, to_integer (key row) = None) rows with
  | row :: _ => failed (cast_error (key row))
  | [] => failed (cast_error "")
  end.

Definition unknown_column {A} : Response A :=
  failed (Js.PostgrestError "42703" "column does not exist").

(** [.order(expr)] on a table whose number column is [column]. *)
Definition order {A} (column : string) (key : A → string)
    (expr : string) (rows : list A) : Response (list A) :=
  if bool_decide (expr = column) then resolved (order_text key rows)
  else if bool_decide (expr = column +:+ "::integer") then
    match order_integer key rows with
    | Some sorted => resolved sorted
    | None => invalid_integer key rows
    end
  else unknown_column.

Definition postgrest (db : Database) : Client := {|
  law_by_number n :=
    single (filter (λ law, law_number law = n) (code_laws db));
  references_from t n :=
    resolved (filter (λ ref, from_type ref = t ∧ from_id ref = n)
                (cross_references db));
  laws_ordered expr := order "law_number" law_number expr (code_laws db);
  articles_ordered expr :=
    order "article_number" article_number expr (rnc_articles db);
|}.

(** *** A store that cannot be reached *)

Definition fetch_failed {A} : Response A :=
  failed (Js.PostgrestError "" "TypeError: Failed to fetch").

Definition unreachable : Client := {|
  law_by_number _ := fetch_failed;
  references_from _ _ := fetch_failed;
  laws_ordered _ := fetch_failed;
  articles_ordered _ := fetch_failed;
|}.

(** A store that answers the law query of [c] and fails on references. *)
Definition without_references (c : Client) : Client := {|
  law_by_number := law_by_number c;
  references_from _ _ := fetch_failed;
  laws_ordered := laws_ordered c;
  articles_ordered := articles_ordered c;
|}.

End Store.

(** ** LawViewer.jsx: one law, its references and the breadcrumb trail *)

Module LawViewer.
Import Store.

Record BreadcrumbEntry : Type := mkEntry {
  type : string;
  id : string;
}.

Global Instance BreadcrumbEntry_eq_dec : EqDecision BreadcrumbEntry.
Proof. solve_decision. Defined.

(** The four [useState] cells of the component, and the console. *)
Record State : Type := mkState {
  law : option Law;
  references : list CrossReference;
  loading : bool;
  breadcrumb : list BreadcrumbEntry;
  console : list Js.ConsoleLine;
}.

(** [useState(null)], [useState([])], [useState(true)], [useState([])]. *)
Definition initial : State := mkState None [] true [] [].

Definition setLaw (v : option Law) : Action State unit :=
  modify (λ s, mkState v (references s) (loading s) (breadcrumb s)
                 (console s)).

Definition setReferences (v : list CrossReference) : Action State unit :=
  modify (λ s, mkState (law s) v (loading s) (breadcrumb s) (console s)).

Definition setLoading (v : bool) : Action State unit :=
  modify (λ s, mkState (law s) (references s) v (breadcrumb s) (console s)).

(** [setBreadcrumb(prev => f(prev))]; the value form is [f := λ _, v]. *)
Definition setBreadcrumb (f : list BreadcrumbEntry → list BreadcrumbEntry)
    : Action State unit :=
  modify (λ s, mkState (law s) (references s) (loading s) (f (breadcrumb s))
                 (console s)).

Definition console_error (text : string) (e : Js.Error) : Action State unit :=
  modify (λ s, mkState (law s) (references s) (loading s) (breadcrumb s)
                 (console s ++ [Js.Err text e])).

Section Component.
Variable supabase : Client.

(** [async function fetchLaw(number)], run until its promise settles: the two
    awaited queries are answered by [supabase], the law query first. *)
Definition fetchLaw (number : string) : Action State unit :=
  try_catch_finally
    (setLoading true ;;
     let lawResponse := law_by_number supabase number in
     throw_if (error lawResponse) ;;
     setLaw (data lawResponse) ;;
     let refResponse := references_from supabase "code" number in
     throw_if (error refResponse) ;;
     setReferences (Js.or_empty (data refResponse)))
    (λ error, console_error "Erreur lors du chargement de la loi:" error)
    (setLoading false).

(** The body of [useEffect(..., [lawNumber])]. The call of [fetchLaw] is not
    awaited; the fetch and [setBreadcrumb] write different cells, so the
    state is the same whichever is applied first. *)
Definition effect (lawNumber : option string) : Action State unit :=
  match lawNumber with
  | Some n =>
      if Js.truthy lawNumber then
        fetchLaw n ;;
        setBreadcrumb (λ prev, Js.spread_push prev (mkEntry "code" n))
      else ret tt
  | None => ret tt
  end.

Definition navigateTo (type id : string) : Action State unit :=
  if bool_decide (type = "code") then
    fetchLaw id ;;
    setBreadcrumb (λ prev, Js.spread_push prev (mkEntry type id))
  else if bool_decide (type = "rnc") then
    ret tt
  else ret tt.

(** [item.type] on [undefined] throws a TypeError. *)
Definition navigateBack (index : Z) : Action State unit :=
  rendered <- gets breadcrumb ;;
  let item := Js.index rendered index in
  setBreadcrumb (λ _, Js.slice rendered 0 (index + 1)) ;;
  match item with
  | None =>
      throw (Js.TypeError
               "Cannot read properties of undefined (reading 'type')")
  | Some item =>
      if bool_decide (type item = "code") then fetchLaw (id item)
      else if bool_decide (type item = "rnc") then ret tt
      else ret tt
  end.

End Component.

(** What the component shows below the breadcrumb. *)
Inductive Body : Type :=
| Chargement
| LawDetail (law : Law) (references : list CrossReference)
| LoiNonTrouvee.

Definition render (s : State) : Body :=
  if loading s then Chargement
  else match law s with
       | Some l => LawDetail l (references s)
       | None => LoiNonTrouvee
       end.

(** The document on screen, if one is. *)
Definition displayed (s : State) : option Law :=
  match render s with
  | LawDetail l _ => Some l
  | _ => None
  end.

(** The trail entry that identifies a law. *)
Definition identity (l : Law) : BreadcrumbEntry :=
  mkEntry "code" (law_number l).

(** What a load of law [number] that fails leaves in [s'], from a state [s]
    showing [previous]: after a failed law query, the previous law and its
    references, still on screen; after a failed reference query, the new law
    with the references of the previous one. *)
Definition left_on_error (supabase : Client) (number : string)
    (s s' : State) (previous : Law) : Prop :=
  (error (law_by_number supabase number) ≠ None →
   law s' = Some previous ∧ references s' = references s ∧
   render s' = render s) ∧
  (error (law_by_number supabase number) = None →
   error (references_from supabase "code" number) ≠ None →
   law s' = data (law_by_number supabase number) ∧
   references s' = references s ∧
   ∀ d, data (law_by_number supabase number) = Some d →
        render s' = LawDetail d (references s)).

(** The trail of [s'] is the trail of [s] with [e] appended. *)
Definition appended (s s' : State) (e : BreadcrumbEntry) : Prop :=
  breadcrumb s' = breadcrumb s ++ [e].

(** The reference links on screen. *)
Definition links (s : State) : list CrossReference :=
  match render s with
  | LawDetail _ refs => refs
  | _ => []
  end.

(** What can happen to a mounted viewer: the [lawNumber] prop is set (on
    mount or by the parent), a reference link is clicked, a breadcrumb link
    is clicked. *)
Inductive Event : Type :=
| PropLawNumber (lawNumber : option string)
| ClickReference (type id : string)
| ClickBreadcrumb (index : Z).

Definition handle (supabase : Client) (ev : Event) : Action State unit :=
  match ev with
  | PropLawNumber n => effect supabase n
  | ClickReference t i => navigateTo supabase t i
  | ClickBreadcrumb k => navigateBack supabase k
  end.

(** An event the rendered page offers: a reference link that is on screen,
    a breadcrumb link that is on screen. *)
Definition offered (s : State) (ev : Event) : Prop :=
  match ev with
  | PropLawNumber _ => True
  | ClickReference t i =>
      ∃ ref, ref ∈ links s ∧ to_type ref = t ∧ to_id ref = i
  | ClickBreadcrumb k => 0 ≤ k < Z.of_nat (length (breadcrumb s))
  end.

(** Reference links to laws followed one after the other. *)
Definition follow_all (supabase : Client) (ids : list string) (s : State)
    : State :=
  foldl (λ s i, exec (navigateTo supabase "code" i) s) s ids.

(** The law number an event asks the store for, if it asks. *)
Definition requested (s : State) (ev : Event) : option string :=
  match ev with
  | PropLawNumber lawNumber => if Js.truthy lawNumber then lawNumber else None
  | ClickReference t i => if bool_decide (t = "code") then Some i else None
  | ClickBreadcrumb k =>
      item ← Js.index (breadcrumb s) k;
      if bool_decide (type item = "code") then Some (id item) else None
  end.

(** The last entry of the trail identifies the document on screen. *)
Definition trail_end_displayed (s : State) : Prop :=
  ∃ d, displayed s = Some d ∧ last (breadcrumb s) = Some (identity d).

(** The states of a mounted viewer; the store may answer differently at
    every event. An event is handled to its end, answers of the store
    included, before the next one: a click that arrives while a load is
    still waiting for the store is not among these transitions. *)
Inductive reachable : State → Prop :=
| reachable_initial : reachable initial
| reachable_handle s supabase ev :
    reachable s → reachable (exec (handle supabase ev) s).

(** The document on screen is the one that (type, id) identifies. *)
Definition shows (s : State) (type id : string) : Prop :=
  ∃ d, displayed s = Some d ∧ identity d = mkEntry type id.

End LawViewer.

(** ** CodeLaws.jsx: the list of laws, ordered by the store on the integer
    cast of the law number *)

Module CodeLaws.
Import Store.

Record State : Type := mkState {
  laws : list Law;
  loading : bool;
  console : list Js.ConsoleLine;
}.

(** [useState([])], [useState(true)]. *)
Definition initial : State := mkState [] true [].

Definition setLaws (v : list Law) : Action State unit :=
  modify (λ s, mkState v (loading s) (console s)).

Definition setLoading (v : bool) : Action State unit :=
  modify (λ s, mkState (laws s) v (console s)).

Definition console_log (text : string) (value : option nat)
    : Action State unit :=
  modify (λ s, mkState (laws s) (loading s)
                 (console s ++ [Js.Log text value])).

Definition console_error (text : string) (e : Js.Error) : Action State unit :=
  modify (λ s, mkState (laws s) (loading s) (console s ++ [Js.Err text e])).

Section Component.
Variable supabase : Client.

Definition fetchLaws : Action State unit :=
  try_catch_finally
    (setLoading true ;;
     let response := laws_ordered supabase "law_number::integer" in
     throw_if (error response) ;;
     console_log "Lois récupérées:" (Js.opt_length (data response)) ;;
     setLaws (Js.or_empty (data response)))
    (λ error, console_error "Erreur:" error)
    (setLoading false).

End Component.

End CodeLaws.

(** ** The CodeLaws component kept in RncArticles.jsx: the same list, ordered
    by the store on the law number as it is stored *)

Module CodeLawsByText.
Import Store.

Section Component.
Variable supabase : Client.

Definition fetchLaws : Action CodeLaws.State unit :=
  try_catch_finally
    (CodeLaws.setLoading true ;;
     let response := laws_ordered supabase "law_number" in
     throw_if (error response) ;;
     CodeLaws.setLaws (Js.or_empty (data response)))
    (λ error,
       CodeLaws.console_error "Erreur lors du chargement des lois:" error)
    (CodeLaws.setLoading false).

End Component.

End CodeLawsByText.

(** ** RncArticles.jsx: the list of articles *)

Module RncArticles.
Import Store.

Record State : Type := mkState {
  articles : list Article;
  loading : bool;
  console : list Js.ConsoleLine;
}.

Definition initial : State := mkState [] true [].

Definition setArticles (v : list Article) : Action State unit :=
  modify (λ s, mkState v (loading s) (console s)).

Definition setLoading (v : bool) : Action State unit :=
  modify (λ s, mkState (articles s) v (console s)).

Definition console_error (text : string) (e : Js.Error) : Action State unit :=
  modify (λ s, mkState (articles s) (loading s)
                 (console s ++ [Js.Err text e])).

Section Component.
Variable supabase : Client.

Definition fetchArticles : Action State unit :=
  try_catch_finally
    (setLoading true ;;
     let response := articles_ordered supabase "article_number" in
     throw_if (error response) ;;
     setArticles (Js.or_empty (data response)))
    (λ error,
       console_error "Erreur lors du chargement des articles:" error)
    (setLoading false).

End Component.

End RncArticles.

(** ** ArbitragePage.jsx: the tabs and the selected document *)

Module ArbitragePage.

Record State : Type := mkState {
  activeTab : string;
  selectedLaw : option string;
  selectedArticle : option string;
}.

(** [useState('code')], [useState(null)], [useState(null)]. *)
Definition initial : State := mkState "code" None None.

Definition setActiveTab (v : string) (s : State) : State :=
  mkState v (selectedLaw s) (selectedArticle s).

Definition setSelectedLaw (v : option string) (s : State) : State :=
  mkState (activeTab s) v (selectedArticle s).

Definition setSelectedArticle (v : option string) (s : State) : State :=
  mkState (activeTab s) (selectedLaw s) v.

(** The children the page can mount in its content area. *)
Inductive Child : Type :=
| CodeLawsList
| RncArticlesList
| LawViewerOf (lawNumber : option string).

(** [{cond && <X />}]. *)
Definition when (cond : bool) (child : Child) : list Child :=
  if cond then [child] else [].

Definition content (s : State) : list Child :=
  when (bool_decide (activeTab s = "code") && negb (Js.truthy (selectedLaw s)))
    CodeLawsList
  ++ when (bool_decide (activeTab s = "rnc")
           && negb (Js.truthy (selectedArticle s)))
    RncArticlesList
  ++ when (bool_decide (activeTab s = "code") && Js.truthy (selectedLaw s))
    (LawViewerOf (selectedLaw s)).

(** The three tab buttons, a click on a law of the list
    ([onSelectLaw(law.law_number)]) and the viewer's way back ([onBack]). *)
Inductive Event : Type :=
| ClickTab (tab : string)
| SelectLaw (lawNumber : string)
| Back.

Definition handle (ev : Event) (s : State) : State :=
  match ev with
  | ClickTab tab => setActiveTab tab s
  | SelectLaw n => setSelectedLaw (Some n) s
  | Back => setSelectedLaw None s
  end.

(** The events the rendered page offers. *)
Definition offered (s : State) (ev : Event) : Prop :=
  match ev with
  | ClickTab tab => tab ∈ ["code"; "rnc"; "categories"]
  | SelectLaw _ => CodeLawsList ∈ content s
  | Back => LawViewerOf (selectedLaw s) ∈ content s
  end.

Inductive reachable : State → Prop :=
| reachable_initial : reachable initial
| reachable_handle s ev :
    reachable s → offered s ev → reachable (handle ev s).

(** The list view that belongs to a tab; the third tab has none. *)
Definition list_of (tab : string) : list Child :=
  if bool_decide (tab = "code") then [CodeLawsList]
  else if bool_decide (tab = "rnc") then [RncArticlesList]
  else [].

(** A document is selected. *)
Definition selected (s : State) : Prop :=
  Js.truthy (selectedLaw s) = true ∨ Js.truthy (selectedArticle s) = true.

(** A click on the button of [tab] leaves no document selected and shows the
    list view of [tab]. *)
Definition clears_selection (s : State) (tab : string) : Prop :=
  let s' := handle (ClickTab tab) s in
  selectedLaw s' = None ∧ selectedArticle s' = None ∧
  content s' = list_of tab.

End ArbitragePage.

(** ** A store and a few viewer states used as concrete inputs *)

Module Demo.
Import Store.

Definition law1 : Law := mkLaw 1 "1" "Le jeu" "Preliminaires" "5" None.
Definition law2 : Law := mkLaw 2 "2" "Les etuis" "Preliminaires" "6" None.
Definition law40 : Law :=
  mkLaw 3 "40" "Ententes entre partenaires" "Encheres" "48"
    (Some "Ententes").

Definition see_opening_lead : CrossReference :=
  mkCrossReference "code" "40" "code" "1" (Some "see opening lead").
Definition to_article : CrossReference :=
  mkCrossReference "code" "40" "rnc" "12" None.
Definition dangling : CrossReference :=
  mkCrossReference "code" "40" "code" "999" None.

Definition article (n : string) : Article := mkArticle 0 n "Titre" "1" None.

(** Laws 1, 2 and 40, law 40 referring to law 1. *)
Definition scenario : Database :=
  mkDatabase [law1; law2; law40] [] [see_opening_lead].

(** Laws 1, 2 and 40; law 40 refers to law 1, to an article, and to a law
    999 that the table does not hold. *)
Definition db : Database :=
  mkDatabase [law1; law2; law40]
    [article "1"; article "2"; article "10"]
    [see_opening_lead; to_article; dangling].

Definition numbered_law (n : string) : Law :=
  mkLaw 0 n "Titre" "Section" "1" None.

(** A store whose laws and articles are numbered 1, 2 and 10. *)
Definition numbered : Database :=
  mkDatabase [numbered_law "1"; numbered_law "2"; numbered_law "10"]
    [article "1"; article "2"; article "10"] [].

(** The viewer mounted on law 40, once the law has loaded. *)
Definition viewing40 : LawViewer.State :=
  exec (LawViewer.effect (postgrest db) (Some "40")) LawViewer.initial.

(** The page after a click on law 40 in the list. *)
Definition page40 : ArbitragePage.State :=
  ArbitragePage.handle (ArbitragePage.SelectLaw "40") ArbitragePage.initial.

(** Article 12 of the RNC, and its reference back to law 40. *)
Definition article12 : Article := mkArticle 1 "12" "Alertes" "30" None.
Definition from_article : CrossReference :=
  mkCrossReference "rnc" "12" "code" "40" None.

(** Laws 1, 2 and 40 and article 12; law 40 refers to law 1 and to
    article 12, which refers back to law 40. *)
Definition with_article : Database :=
  mkDatabase [law1; law2; law40] [article12]
    [see_opening_lead; to_article; from_article].

(** The viewer mounted on law 40 of that store, once the law has loaded. *)
Definition viewing40_with_article : LawViewer.State :=
  exec (LawViewer.effect (postgrest with_article) (Some "40"))
    LawViewer.initial.

End Demo.

(** ** The CodeLaws component with a reload button (CodeLaws.jsx, second
    component): the fetch does not raise the loading flag, and logs what it
    receives *)

Module CodeLawsReload.
Import Store.

(** The console of this component: a text alone, a text with the data
    received ([null] or the rows), a text with an error. *)
Inductive Line : Type :=
| Say (text : string)
| Received (text : string) (data : option (list Law))
| Failed (text : string) (e : Js.Error).

Record State : Type := mkState {
  laws : list Law;
  loading : bool;
  console : list Line;
}.

Definition initial : State := mkState [] true [].

Definition setLaws (v : list Law) : Action State unit :=
  modify (λ s, mkState v (loading s) (console s)).

Definition setLoading (v : bool) : Action State unit :=
  modify (λ s, mkState (laws s) v (console s)).

Definition write (line : Line) : Action State unit :=
  modify (λ s, mkState (laws s) (loading s) (console s ++ [line])).

Section Component.
Variable supabase : Client.

Definition fetchLaws : Action State unit :=
  try_catch_finally
    (write (Say "Fetching laws...") ;;
     let response := laws_ordered supabase "law_number::integer" in
     write (Received "Data received:" (data response)) ;;
     match error response with
     | Some e => write (Failed "Error:" e) ;; throw e
     | None => ret tt
     end ;;
     setLaws (Js.or_empty (data response)))
    (λ error, write (Failed "Erreur:" error))
    (setLoading false).

End Component.

End CodeLawsReload.

(** ** The CodeLaws component the page mounts (RncArticles.jsx, third
    component): a click on a law calls [onSelectLaw], and the fetch ends
    with an alert *)

Module CodeLawsSelect.
Import Store.

Record State : Type := mkState {
  laws : list Law;
  loading : bool;
  console : list Js.ConsoleLine;
  alerts : list string;
}.

Definition initial : State := mkState [] true [] [].

Definition setLaws (v : list Law) : Action State unit :=
  modify (λ s, mkState v (loading s) (console s) (alerts s)).

Definition setLoading (v : bool) : Action State unit :=
  modify (λ s, mkState (laws s) v (console s) (alerts s)).

Definition console_log (text : string) (value : option nat)
    : Action State unit :=
  modify (λ s, mkState (laws s) (loading s)
                 (console s ++ [Js.Log text value]) (alerts s)).

Definition console_error (text : string) (e : Js.Error) : Action State unit :=
  modify (λ s, mkState (laws s) (loading s)
                 (console s ++ [Js.Err text e]) (alerts s)).

Definition alert (text : string) : Action State unit :=
  modify (λ s, mkState (laws s) (loading s) (console s) (alerts s ++ [text])).

(** [data?.length || 0]. *)
Definition length_or_zero {A} (data : option (list A)) : nat :=
  default 0%nat (Js.opt_length data).

Section Component.
Variable supabase : Client.

Definition fetchLaws : Action State unit :=
  try_catch_finally
    (setLoading true ;;
     let response := laws_ordered supabase "law_number::integer" in
     throw_if (error response) ;;
     setLaws (Js.or_empty (data response)) ;;
     console_log "Lois récupérées:" (Js.opt_length (data response)) ;;
     alert ("Nombre de lois: " +:+ pretty (length_or_zero (data response))))
    (λ error, console_error "Erreur:" error)
    (setLoading false).

End Component.

(** [onClick={() => onSelectLaw && onSelectLaw(law.law_number)}], on a
    parent whose state is [P]; the prop may be missing. *)
Definition click {P} (onSelectLaw : option (string → P → P)) (law : Law)
    (parent : P) : P :=
  match onSelectLaw with
  | Some callback => callback (law_number law) parent
  | None => parent
  end.

End CodeLawsSelect.

(** ** supabaseClient.js: the connection test *)

Module SupabaseClient.
Import Store.

(** What [testConnection] writes to the console. *)
Inductive Line : Type :=
| Connected
| ConnectionError (e : Js.Error).

(** [try { body } catch (error) { handler }]. *)
Definition try_catch {S A} (body : Action S A)
    (handler : Js.Error → Action S A) : Action S A :=
  λ s, match body s with
       | (Normal a, s') => (Normal a, s')
       | (Thrown e, s') => handler e s'
       end.

Definition write (line : Line) : Action (list Line) unit :=
  modify (λ console, console ++ [line]).

(** The query [from('code_laws').select('law_number, title').limit(1)]
    resolves to [response]; the rows are pairs of a number and a title. *)
Definition testConnection (response : Response (list (string * string)))
    : Action (list Line) bool :=
  try_catch
    (throw_if (error response) ;;
     write Connected ;;
     ret true)
    (λ error, write (ConnectionError error) ;; ret false).

(** The answer of a reachable store to that query. *)
Definition first_law (db : Database) : Response (list (string * string)) :=
  resolved (take 1 ((λ l, (law_number l, law_title l)) <$> code_laws db)).

End SupabaseClient.

(** ** The page with its mounted children

    React keeps the state of a child while the page renders it, creates it
    anew (initial state, then its effects, each run once) when the page
    starts to render it, and discards it when the page stops rendering
    it. *)

Module ArbitrageTree.
Import Store.

Global Instance Child_eq_dec : EqDecision ArbitragePage.Child.
Proof. solve_decision. Defined.

Record Tree : Type := mkTree {
  page : ArbitragePage.State;
  lawsList : option CodeLawsSelect.State;
  articlesList : option RncArticles.State;
  viewer : option LawViewer.State;
}.

Section Mounting.
Variable supabase : Client.

(** A child right after its first render: [useEffect(..., [])] of the lists,
    [useEffect(..., [lawNumber])] of the viewer. *)
Definition mountLaws : CodeLawsSelect.State :=
  exec (CodeLawsSelect.fetchLaws supabase) CodeLawsSelect.initial.

Definition mountArticles : RncArticles.State :=
  exec (RncArticles.fetchArticles supabase) RncArticles.initial.

Definition mountViewer (lawNumber : option string) : LawViewer.State :=
  exec (LawViewer.effect supabase lawNumber) LawViewer.initial.

(** The viewer kept across a render: its effect runs again when the
    [lawNumber] prop has changed. *)
Definition keepViewer (before after : option string) (v : LawViewer.State)
    : LawViewer.State :=
  if decide (before = after) then v
  else exec (LawViewer.effect supabase after) v.

(** The children after the page state has become [page']. *)
Definition render (t : Tree) (page' : ArbitragePage.State) : Tree :=
  let shown := ArbitragePage.content page' in
  mkTree page'
    (if decide (ArbitragePage.CodeLawsList ∈ shown)
     then Some (default mountLaws (lawsList t)) else None)
    (if decide (ArbitragePage.RncArticlesList ∈ shown)
     then Some (default mountArticles (articlesList t)) else None)
    (if decide (ArbitragePage.LawViewerOf (ArbitragePage.selectedLaw page')
                ∈ shown)
     then Some (match viewer t with
                | Some v =>
                    keepViewer (ArbitragePage.selectedLaw (page t))
                      (ArbitragePage.selectedLaw page') v
                | None => mountViewer (ArbitragePage.selectedLaw page')
                end)
     else None).

(** The first render of the page. *)
Definition first : Tree :=
  render (mkTree ArbitragePage.initial None None None) ArbitragePage.initial.

(** A tab button, a law of the list, the way back of the viewer, a
    reference link or a breadcrumb link of the viewer. *)
Inductive Event : Type :=
| ClickTab (tab : string)
| ClickLaw (law : Law)
| ClickBack
| ClickReference (type id : string)
| ClickBreadcrumb (index : Z).

Definition inViewer (ev : LawViewer.Event) (t : Tree) : Tree :=
  mkTree (page t) (lawsList t) (articlesList t)
    (exec (LawViewer.handle supabase ev) <$> viewer t).

Definition handle (ev : Event) (t : Tree) : Tree :=
  match ev with
  | ClickTab tab => render t (ArbitragePage.setActiveTab tab (page t))
  | ClickLaw law =>
      render t
        (CodeLawsSelect.click
           (Some (λ n, ArbitragePage.setSelectedLaw (Some n))) law (page t))
  | ClickBack => render t (ArbitragePage.setSelectedLaw None (page t))
  | ClickReference type id => inViewer (LawViewer.ClickReference type id) t
  | ClickBreadcrumb index => inViewer (LawViewer.ClickBreadcrumb index) t
  end.

End Mounting.

(** The events the rendered tree offers. *)
Definition offered (t : Tree) (ev : Event) : Prop :=
  match ev with
  | ClickTab tab => tab ∈ ["code"; "rnc"; "categories"]
  | ClickLaw law => ∃ l, lawsList t = Some l ∧ law ∈ CodeLawsSelect.laws l
  | ClickBack => is_Some (viewer t)
  | ClickReference type id =>
      ∃ v, viewer t = Some v ∧
           LawViewer.offered v (LawViewer.ClickReference type id)
  | ClickBreadcrumb index =>
      ∃ v, viewer t = Some v ∧
           LawViewer.offered v (LawViewer.ClickBreadcrumb index)
  end.

(** The children that hold a state are the children the page renders. *)
Definition mounted_as_rendered (t : Tree) : Prop :=
  let shown := ArbitragePage.content (page t) in
  (is_Some (lawsList t) ↔ ArbitragePage.CodeLawsList ∈ shown) ∧
  (is_Some (articlesList t) ↔ ArbitragePage.RncArticlesList ∈ shown) ∧
  (is_Some (viewer t) ↔
   ArbitragePage.LawViewerOf (ArbitragePage.selectedLaw (page t)) ∈ shown).

(** The trail of the mounted viewer starts with the law selected on the
    page. *)
Definition viewer_on_selected (t : Tree) : Prop :=
  ∀ v, viewer t = Some v →
       ∃ n, ArbitragePage.selectedLaw (page t) = Some n ∧ n ≠ "" ∧
            head (LawViewer.breadcrumb v) = Some (LawViewer.mkEntry "code" n).

(** The trees of a session; the store may answer differently at every
    event. *)
Inductive reachable : Tree → Prop :=
| reachable_first supabase : reachable (first supabase)
| reachable_handle supabase t ev :
    reachable t → offered t ev → reachable (handle supabase ev t).

End ArbitrageTree.

(** ** schema.sql: the articles, their references, and the view that joins
    them *)

Module Sql.

(** [x = y] in a WHERE or ON clause keeps a row only when both sides are not
    NULL and equal. *)
Definition eq {A} `{EqDecision A} (x y : option A) : bool :=
  match x, y with
  | Some a, Some b => bool_decide (a = b)
  | _, _ => false
  end.

(** [l LEFT JOIN r ON on]: every row of [l], once per matching row of [r],
    and once with NULLs when no row of [r] matches. A join without ORDER BY
    promises no order of its rows; the list below holds them in the order of
    [l], one of the orders the store may answer in, and what is stated of a
    view holds of its rows whatever their order. *)
Definition left_join {A B} (on : A → B → bool) (l : list A) (r : list B)
    : list (A * option B) :=
  a ← l;
  match filter (λ b, on a b = true) r with
  | [] => [(a, None)]
  | matches => (λ b, (a, Some b)) <$> matches
  end.

(** PRIMARY KEY and UNIQUE NOT NULL on one column. *)
Definition unique_column {A K} (key : A → K) (rows : list A) : Prop :=
  NoDup (key <$> rows).

(** UNIQUE on nullable columns: two rows agree on them only when one of the
    columns is NULL; [key] is [None] on such a row. *)
Definition unique_nullable {A K} (key : A → option K) (rows : list A) : Prop :=
  ∀ r1 r2, r1 ∈ rows → r2 ∈ rows → is_Some (key r1) → key r1 = key r2 →
           r1 = r2.

End Sql.

Module Schema.

(** A TIMESTAMP WITH TIME ZONE, in microseconds, and the bits of a FLOAT;
    the view computes on neither. *)
Definition Timestamp : Type := Z.
Definition Float : Type := Z.

Record ArticleRow : Type := mkArticleRow {
  a_id : Z;
  a_article_id : string;
  a_title : string;
  a_content : string;
  a_source_file : option string;
  a_category_id : option Z;
  a_is_active : option bool;
  a_created_at : option Timestamp;
  a_updated_at : option Timestamp;
}.

Record MetadataRow : Type := mkMetadataRow {
  m_id : Z;
  m_article_id : option Z;
  m_word_count : option Z;
  m_reference_count : option Z;
  m_citation_count : option Z;
  m_importance_score : option Float;
  m_complexity_score : option Float;
  m_created_at : option Timestamp;
  m_updated_at : option Timestamp;
}.

Record ReferenceRow : Type := mkReferenceRow {
  r_id : Z;
  r_source_article_id : option Z;
  r_target_article_id : option Z;
  r_reference_type : option string;
  r_context : option string;
  r_created_at : option Timestamp;
}.

Record CategoryRow : Type := mkCategoryRow {
  c_id : Z;
  c_name : string;
  c_description : option string;
  c_parent_id : option Z;
  c_display_order : option Z;
  c_created_at : option Timestamp;
  c_updated_at : option Timestamp;
}.

Record ArticleCategoryRow : Type := mkArticleCategoryRow {
  ac_article_id : Z;
  ac_category_id : Z;
}.

Record Tables : Type := mkTables {
  articles : list ArticleRow;
  article_metadata : list MetadataRow;
  article_references : list ReferenceRow;
  categories : list CategoryRow;
  article_categories : list ArticleCategoryRow;
}.

(** The keys the schema declares on the three tables the reference columns
    read: [articles.id] and [article_references.id] PRIMARY KEY,
    [articles.article_id] UNIQUE, and
    [UNIQUE(source_article_id, target_article_id)]. *)
Definition reference_pair (r : ReferenceRow) : option (Z * Z) :=
  s ← r_source_article_id r; t ← r_target_article_id r; Some (s, t).

Definition keys (db : Tables) : Prop :=
  Sql.unique_column a_id (articles db) ∧
  Sql.unique_column a_article_id (articles db) ∧
  Sql.unique_column r_id (article_references db) ∧
  Sql.unique_nullable reference_pair (article_references db).

(** A row of [view_articles_with_references]. *)
Record ViewRow : Type := mkViewRow {
  v_id : Z;
  v_article_id : string;
  v_title : string;
  v_content : string;
  v_source_file : option string;
  v_is_active : option bool;
  v_word_count : option Z;
  v_reference_count : option Z;
  v_citation_count : option Z;
  v_importance_score : option Float;
  v_references : list string;
  v_referenced_by : list string;
  v_categories : list string;
}.

Section View.
Variable db : Tables.

(** [ARRAY(SELECT target.article_id FROM article_references ar
     JOIN articles target ON ar.target_article_id = target.id
     WHERE ar.source_article_id = a.id)]. *)
Definition references_of (a : ArticleRow) : list string :=
  ar ← article_references db;
  target ← articles db;
  if Sql.eq (r_target_article_id ar) (Some (a_id target))
     && Sql.eq (r_source_article_id ar) (Some (a_id a))
  then [a_article_id target] else [].

(** [ARRAY(SELECT source.article_id FROM article_references ar
     JOIN articles source ON ar.source_article_id = source.id
     WHERE ar.target_article_id = a.id)]. *)
Definition referenced_by_of (a : ArticleRow) : list string :=
  ar ← article_references db;
  source ← articles db;
  if Sql.eq (r_source_article_id ar) (Some (a_id source))
     && Sql.eq (r_target_article_id ar) (Some (a_id a))
  then [a_article_id source] else [].

(** [ARRAY(SELECT c.name FROM article_categories ac
     JOIN categories c ON ac.category_id = c.id
     WHERE ac.article_id = a.id)]. *)
Definition categories_of (a : ArticleRow) : list string :=
  ac ← article_categories db;
  c ← categories db;
  if bool_decide (ac_category_id ac = c_id c)
     && bool_decide (ac_article_id ac = a_id a)
  then [c_name c] else [].

(** The SELECT list, on an article and its metadata row or NULLs. *)
Definition view_row_of (a : ArticleRow) (m : option MetadataRow) : ViewRow :=
  mkViewRow (a_id a) (a_article_id a) (a_title a) (a_content a)
    (a_source_file a) (a_is_active a)
    (m ≫= m_word_count) (m ≫= m_reference_count) (m ≫= m_citation_count)
    (m ≫= m_importance_score)
    (references_of a) (referenced_by_of a) (categories_of a).

(** [FROM articles a LEFT JOIN article_metadata m ON a.id = m.article_id]. *)
Definition view_articles_with_references : list ViewRow :=
  '(a, m) ← Sql.left_join (λ a m, Sql.eq (Some (a_id a)) (m_article_id m))
              (articles db) (article_metadata db);
  [view_row_of a m].

End View.

(** Three articles; 40 refers to 1 and to 2, and only 40 has metadata. *)
Definition article1 : ArticleRow :=
  mkArticleRow 1 "1" "Le jeu" "..." None None (Some true) None None.
Definition article2 : ArticleRow :=
  mkArticleRow 2 "2" "Les etuis" "..." None None (Some true) None None.
Definition article40 : ArticleRow :=
  mkArticleRow 3 "40" "Ententes" "..." None None (Some true) None None.
Definition metadata40 : MetadataRow :=
  mkMetadataRow 1 (Some 3) (Some 120) (Some 2) (Some 0) None None None None.

Definition sample : Tables :=
  mkTables [article1; article2; article40] [metadata40]
    [mkReferenceRow 1 (Some 3) (Some 1) (Some "direct") None None;
     mkReferenceRow 2 (Some 3) (Some 2) (Some "direct") None None;
     mkReferenceRow 3 None (Some 1) None None None]
    [] [].

End Schema.

(** ** courses_schema.sql and auth_schema.sql: the courses with their
    lessons, and the users with their permissions *)

Module Courses.
Import Schema.

(** A UUID, as its text, and a DECIMAL(10, 2), in hundredths. *)
Definition Uuid : Type := string.
Definition Decimal : Type := Z.

Record RoleRow : Type := mkRoleRow {
  ro_id : Z;
  ro_name : string;
  ro_description : option string;
  ro_created_at : option Timestamp;
  ro_updated_at : option Timestamp;
}.

Record PermissionRow : Type := mkPermissionRow {
  pe_id : Z;
  pe_name : string;
  pe_description : option string;
  pe_created_at : option Timestamp;
  pe_updated_at : option Timestamp;
}.

Record UserProfileRow : Type := mkUserProfileRow {
  up_id : Uuid;
  up_email : string;
  up_first_name : option string;
  up_last_name : option string;
  up_display_name : option string;
  up_role_id : option Z;
  up_is_active : option bool;
  up_last_login : option Timestamp;
  up_created_at : option Timestamp;
  up_updated_at : option Timestamp;
}.

Record UserPermissionRow : Type := mkUserPermissionRow {
  upe_user_id : Uuid;
  upe_permission_id : Z;
  upe_granted_at : option Timestamp;
  upe_granted_by : option Uuid;
}.

Record CourseCategoryRow : Type := mkCourseCategoryRow {
  cc_id : Z;
  cc_name : string;
  cc_description : option string;
  cc_display_order : option Z;
  cc_created_at : option Timestamp;
  cc_updated_at : option Timestamp;
}.

Record CourseRow : Type := mkCourseRow {
  co_id : Z;
  co_title : string;
  co_description : option string;
  co_category_id : option Z;
  co_level : option string;
  co_duration : option Z;
  co_price : option Decimal;
  co_max_students : option Z;
  co_is_group_course : option bool;
  co_is_published : option bool;
  co_instructor_id : option Uuid;
  co_created_at : option Timestamp;
  co_updated_at : option Timestamp;
}.

Record LessonRow : Type := mkLessonRow {
  le_id : Z;
  le_course_id : option Z;
  le_title : string;
  le_description : option string;
  le_content : option string;
  le_duration : option Z;
  le_display_order : option Z;
  le_is_published : option bool;
  le_created_at : option Timestamp;
  le_updated_at : option Timestamp;
}.

Record EnrollmentRow : Type := mkEnrollmentRow {
  en_id : Z;
  en_course_id : option Z;
  en_user_id : option Uuid;
  en_enrollment_date : option Timestamp;
  en_completion_date : option Timestamp;
  en_is_active : option bool;
  en_payment_status : option string;
  en_payment_amount : option Decimal;
  en_payment_reference : option string;
  en_created_at : option Timestamp;
  en_updated_at : option Timestamp;
}.

Record Tables : Type := mkTables {
  roles : list RoleRow;
  permissions : list PermissionRow;
  user_profiles : list UserProfileRow;
  user_permissions : list UserPermissionRow;
  course_categories : list CourseCategoryRow;
  courses : list CourseRow;
  lessons : list LessonRow;
  course_enrollments : list EnrollmentRow;
}.

(** The object [json_build_object('id', ..., 'is_published', ...)] of a
    lesson. *)
Record LessonObject : Type := mkLessonObject {
  lo_id : Z;
  lo_title : string;
  lo_description : option string;
  lo_duration : option Z;
  lo_display_order : option Z;
  lo_is_published : option bool;
}.

Definition lesson_object (l : LessonRow) : LessonObject :=
  mkLessonObject (le_id l) (le_title l) (le_description l) (le_duration l)
    (le_display_order l) (le_is_published l).

(** ORDER BY on a nullable integer, ascending: NULLs come last. *)
Definition nulls_last (x y : option Z) : Prop :=
  match x, y with
  | _, None => True
  | None, Some _ => False
  | Some a, Some b => a ≤ b
  end.

Global Instance nulls_last_dec : RelDecision nulls_last.
Proof. intros [a|] [b|]; simpl; apply _. Defined.

(** A row of [view_courses_with_lessons]. *)
Record CourseView : Type := mkCourseView {
  cv_course_id : Z;
  cv_course_title : string;
  cv_course_description : option string;
  cv_level : option string;
  cv_course_duration : option Z;
  cv_price : option Decimal;
  cv_max_students : option Z;
  cv_is_group_course : option bool;
  cv_course_published : option bool;
  cv_category_name : option string;
  cv_instructor_name : option string;
  cv_enrollment_count : nat;
  cv_lessons : list LessonObject;
}.

(** A row of [view_users_with_permissions]. *)
Record UserView : Type := mkUserView {
  uv_id : Uuid;
  uv_email : string;
  uv_first_name : option string;
  uv_last_name : option string;
  uv_display_name : option string;
  uv_role_name : option string;
  uv_is_active : option bool;
  uv_last_login : option Timestamp;
  uv_permissions : list string;
}.

Section Views.
Variable db : Tables.

(** [SELECT COUNT( * ) FROM course_enrollments ce
     WHERE ce.course_id = c.id AND ce.is_active = TRUE]. *)
Definition enrollment_count (c : CourseRow) : nat :=
  length (filter (λ ce, Sql.eq (en_course_id ce) (Some (co_id c))
                        && Sql.eq (en_is_active ce) (Some true) = true)
            (course_enrollments db)).

(** [ARRAY(SELECT json_build_object(...) FROM lessons l
     WHERE l.course_id = c.id ORDER BY l.display_order)]. *)
Definition lessons_of (c : CourseRow) : list LessonObject :=
  lesson_object
  <$> merge_sort (Store.by_key nulls_last le_display_order)
        (filter (λ l, Sql.eq (le_course_id l) (Some (co_id c)) = true)
           (lessons db)).

Definition course_view_of (c : CourseRow) (cc : option CourseCategoryRow)
    (up : option UserProfileRow) : CourseView :=
  mkCourseView (co_id c) (co_title c) (co_description c) (co_level c)
    (co_duration c) (co_price c) (co_max_students c) (co_is_group_course c)
    (co_is_published c) (cc_name <$> cc) (up ≫= up_display_name)
    (enrollment_count c) (lessons_of c).

(** [FROM courses c
     LEFT JOIN course_categories cc ON c.category_id = cc.id
     LEFT JOIN user_profiles up ON c.instructor_id = up.id]. *)
Definition view_courses_with_lessons : list CourseView :=
  '(c, cc, up) ←
    Sql.left_join (λ '(c, _) up, Sql.eq (co_instructor_id c) (Some (up_id up)))
      (Sql.left_join (λ c cc, Sql.eq (co_category_id c) (Some (cc_id cc)))
         (courses db) (course_categories db))
      (user_profiles db);
  [course_view_of c cc up].

(** [ARRAY(SELECT p.name FROM user_permissions up
     JOIN permissions p ON up.permission_id = p.id
     WHERE up.user_id = u.id)]. *)
Definition permissions_of (u : UserProfileRow) : list string :=
  up ← user_permissions db;
  p ← permissions db;
  if bool_decide (upe_permission_id up = pe_id p)
     && bool_decide (upe_user_id up = up_id u)
  then [pe_name p] else [].

Definition user_view_of (u : UserProfileRow) (r : option RoleRow) : UserView :=
  mkUserView (up_id u) (up_email u) (up_first_name u) (up_last_name u)
    (up_display_name u) (ro_name <$> r) (up_is_active u) (up_last_login u)
    (permissions_of u).

(** [FROM user_profiles u LEFT JOIN roles r ON u.role_id = r.id]. *)
Definition view_users_with_permissions : list UserView :=
  '(u, r) ← Sql.left_join (λ u r, Sql.eq (up_role_id u) (Some (ro_id r)))
              (user_profiles db) (roles db);
  [user_view_of u r].

End Views.

(** The default roles and permissions of the schema, one teacher with two
    permissions, and one course with two lessons stored out of order. *)
Definition teacher : UserProfileRow :=
  mkUserProfileRow "u-1" "prof@example.org" None None (Some "Prof") (Some 2)
    (Some true) None None None.

Definition bidding : CourseRow :=
  mkCourseRow 1 "Les encheres" None (Some 1) (Some "debutant") (Some 60)
    (Some 2500) (Some 8) (Some true) (Some true) (Some "u-1") None None.

Definition sample : Tables :=
  mkTables
    [mkRoleRow 1 "admin" None None None; mkRoleRow 2 "teacher" None None None;
     mkRoleRow 3 "student" None None None; mkRoleRow 4 "referee" None None None;
     mkRoleRow 5 "guest" None None None]
    [mkPermissionRow 1 "access_courses" None None None;
     mkPermissionRow 2 "access_arbitration" None None None;
     mkPermissionRow 3 "manage_users" None None None;
     mkPermissionRow 4 "manage_content" None None None;
     mkPermissionRow 5 "view_analytics" None None None]
    [teacher]
    [mkUserPermissionRow "u-1" 1 None None;
     mkUserPermissionRow "u-1" 2 None None]
    [mkCourseCategoryRow 1 "Debutant" None (Some 1) None None]
    [bidding]
    [mkLessonRow 1 (Some 1) "Le contre" None None None (Some 2) None None None;
     mkLessonRow 2 (Some 1) "L'ouverture" None None None (Some 1) None None None;
     mkLessonRow 3 (Some 1) "Annexe" None None None None None None None]
    [mkEnrollmentRow 1 (Some 1) (Some "u-1") None None (Some true) None None
       None None None;
     mkEnrollmentRow 2 (Some 1) (Some "u-2") None None (Some false) None None
       None None None].

End Courses.

(** ** schema.sql: the statistics over the articles *)

Module Statistics.
Import Schema.

(** COUNT(DISTINCT x): the NULLs do not count. *)
Definition count_distinct {K} `{EqDecision K} (column : list (option K)) : nat :=
  length (remove_dups (omap id column)).

(** AVG(x) over the values that are not NULL, as the sum and the number of
    values the quotient is taken of; NULL when there is none. *)
Definition avg (column : list (option Z)) : option (Z * positive) :=
  match omap id column with
  | [] => None
  | values => Some (foldr Z.add 0 values, Pos.of_nat (length values))
  end.

(** MAX(x) over the values that are not NULL; NULL when there is none. *)
Definition max (column : list (option Z)) : option Z :=
  match omap id column with
  | [] => None
  | v :: values => Some (foldr Z.max v values)
  end.

(** ORDER BY on a nullable integer, descending: NULLs come first. *)
Definition nulls_first_desc (x y : option Z) : Prop :=
  match x, y with
  | None, _ => True
  | Some _, None => False
  | Some a, Some b => b ≤ a
  end.

Global Instance nulls_first_desc_dec : RelDecision nulls_first_desc.
Proof. intros [a|] [b|]; simpl; apply _. Defined.

(** The row of [view_article_statistics]. *)
Record Row : Type := mkRow {
  total_articles : nat;
  total_references : nat;
  avg_word_count : option (Z * positive);
  max_citations : option Z;
  most_cited_article : option string;
  total_categories : nat;
}.

(** A row of the FROM clause of the view: an article with the reference,
    the metadata, the category link and the category joined to it, or
    NULLs. *)
Definition Joined : Type :=
  ArticleRow * option ReferenceRow * option MetadataRow
  * option ArticleCategoryRow * option CategoryRow.

Definition j_article (j : Joined) : ArticleRow := j.1.1.1.1.
Definition j_reference (j : Joined) : option ReferenceRow := j.1.1.1.2.
Definition j_metadata (j : Joined) : option MetadataRow := j.1.1.2.
Definition j_category (j : Joined) : option CategoryRow := j.2.

(** The four ON conditions of the view. *)
Definition on_reference (a : ArticleRow) (ar : ReferenceRow) : bool :=
  Sql.eq (Some (a_id a)) (r_source_article_id ar).

Definition on_metadata (j : ArticleRow * option ReferenceRow)
    (m : MetadataRow) : bool :=
  Sql.eq (Some (a_id j.1)) (m_article_id m).

Definition on_link
    (j : ArticleRow * option ReferenceRow * option MetadataRow)
    (ac : ArticleCategoryRow) : bool :=
  bool_decide (a_id j.1.1 = ac_article_id ac).

Definition on_category
    (j : ArticleRow * option ReferenceRow * option MetadataRow
         * option ArticleCategoryRow)
    (c : CategoryRow) : bool :=
  match j.2 with
  | Some ac => bool_decide (ac_category_id ac = c_id c)
  | None => false
  end.

Section View.
Variable db : Tables.

(** [FROM articles a
     LEFT JOIN article_references ar ON a.id = ar.source_article_id
     LEFT JOIN article_metadata m ON a.id = m.article_id
     LEFT JOIN article_categories ac ON a.id = ac.article_id
     LEFT JOIN categories c ON ac.category_id = c.id]. *)
Definition joined : list Joined :=
  Sql.left_join on_category
    (Sql.left_join on_link
       (Sql.left_join on_metadata
          (Sql.left_join on_reference (articles db) (article_references db))
          (article_metadata db))
       (article_categories db))
    (categories db).

(** [SELECT a.article_id FROM articles a
     JOIN article_metadata m ON a.id = m.article_id
     ORDER BY m.citation_count DESC LIMIT 1]. *)
Definition with_metadata : list (ArticleRow * MetadataRow) :=
  a ← articles db;
  m ← article_metadata db;
  if Sql.eq (Some (a_id a)) (m_article_id m) then [(a, m)] else [].

Definition most_cited : option string :=
  (λ am, a_article_id am.1)
  <$> head (merge_sort
              (Store.by_key nulls_first_desc (λ am, m_citation_count am.2))
              with_metadata).

Definition view_article_statistics : Row :=
  mkRow
    (count_distinct ((λ j, Some (a_id (j_article j))) <$> joined))
    (count_distinct ((λ j, r_id <$> j_reference j) <$> joined))
    (avg ((λ j, j_metadata j ≫= m_word_count) <$> joined))
    (max ((λ j, j_metadata j ≫= m_citation_count) <$> joined))
    most_cited
    (count_distinct ((λ j, c_id <$> j_category j) <$> joined)).

End View.

(** Two articles; the first has two references, two metadata rows (one
    without a citation count) and one category. *)
Definition sample : Tables :=
  mkTables
    [mkArticleRow 1 "1" "Le jeu" "..." None None (Some true) None None;
     mkArticleRow 2 "2" "Les etuis" "..." None None (Some true) None None]
    [mkMetadataRow 1 (Some 1) (Some 100) None None None None None None;
     mkMetadataRow 2 (Some 2) (Some 50) None (Some 7) None None None None]
    [mkReferenceRow 1 (Some 1) (Some 2) None None None;
     mkReferenceRow 2 (Some 1) (Some 1) None None None;
     mkReferenceRow 3 None (Some 1) None None None]
    [mkCategoryRow 1 "Encheres" None None None None None]
    [mkArticleCategoryRow 1 1].

End Statistics.

(** * Properties *)

(** ** try / catch / finally *)

Section TryCatchFinally.
Context {S : Type}.
Implicit Types (body final : Action S unit).
Implicit Types (handler : Js.Error → Action S unit).

(** Whatever the body and the handler do, a property the final block
    establishes holds when the statement is over. *)
Lemma finally_establishes (P : S → Prop) body handler final :
  (∀ s, P (exec final s)) →
  ∀ s, P (exec (try_catch_finally body handler final) s).
Proof.
  intros Hfinal s. unfold exec, try_catch_finally.
  destruct (body s) as [[a|e] s1]; simpl.
  - specialize (Hfinal s1). unfold exec in Hfinal.
    destruct (final s1) as [[?|?] s3]; exact Hfinal.
  - destruct (handler e s1) as [c2 s2].
    specialize (Hfinal s2). unfold exec in Hfinal.
    destruct (final s2) as [[?|?] s3]; exact Hfinal.
Qed.

(** With a handler and a final block that do not throw, nothing thrown in
    the body leaves the statement. *)
Lemma catch_absorbs body handler final :
  (∀ e s, completion (handler e) s = Normal tt) →
  (∀ s, completion final s = Normal tt) →
  ∀ s, completion (try_catch_finally body handler final) s = Normal tt.
Proof.
  intros Hhandler Hfinal s. unfold completion, try_catch_finally.
  destruct (body s) as [[[]|e] s1]; simpl.
  - specialize (Hfinal s1). unfold completion in Hfinal.
    destruct (final s1) as [c3 s3]; simpl in *. by subst.
  - specialize (Hhandler e s1). unfold completion in Hhandler.
    destruct (handler e s1) as [c2 s2]; simpl in *. subst.
    specialize (Hfinal s2). unfold completion in Hfinal.
    destruct (final s2) as [c3 s3]; simpl in *. by subst.
Qed.

End TryCatchFinally.

(** ** The law viewer *)

Module LawViewerFacts.
Import Store LawViewer.

Section Fetch.
Variable supabase : Client.
Implicit Types (s : State) (number : string).

(** The state left by [fetchLaw], path by path. *)
Lemma fetchLaw_run number s :
  fetchLaw supabase number s =
  (Normal tt,
   match error (law_by_number supabase number) with
   | Some e =>
       mkState (law s) (references s) false (breadcrumb s)
         (console s ++ [Js.Err "Erreur lors du chargement de la loi:" e])
   | None =>
       match error (references_from supabase "code" number) with
       | Some e =>
           mkState (data (law_by_number supabase number)) (references s)
             false (breadcrumb s)
             (console s ++ [Js.Err "Erreur lors du chargement de la loi:" e])
       | None =>
           mkState (data (law_by_number supabase number))
             (Js.or_empty (data (references_from supabase "code" number)))
             false (breadcrumb s) (console s)
       end
   end).
Proof.
  unfold fetchLaw, try_catch_finally, Eff.bind, throw_if.
  destruct (error (law_by_number supabase number)) as [e1|]; simpl; [done|].
  destruct (error (references_from supabase "code" number)) as [e2|];
    simpl; done.
Qed.

Lemma fetchLaw_completion number s :
  completion (fetchLaw supabase number) s = Normal tt.
Proof. unfold completion. by rewrite fetchLaw_run. Qed.

(** A fetch never touches the trail, so the order in which React applies
    the updates of a fetch and of [setBreadcrumb] does not matter. *)
Lemma fetchLaw_breadcrumb number s :
  breadcrumb (exec (fetchLaw supabase number) s) = breadcrumb s.
Proof.
  unfold exec. rewrite fetchLaw_run. simpl.
  repeat case_match; done.
Qed.

Lemma navigateTo_code id s :
  navigateTo supabase "code" id s =
  (Normal tt,
   let s' := exec (fetchLaw supabase id) s in
   mkState (law s') (references s') (loading s')
     (breadcrumb s ++ [mkEntry "code" id]) (console s')).
Proof.
  unfold navigateTo. rewrite bool_decide_eq_true_2 by done.
  unfold Eff.bind, exec. rewrite fetchLaw_run. simpl.
  repeat case_match; done.
Qed.

Lemma navigateTo_other type id s :
  type ≠ "code" → navigateTo supabase type id s = (Normal tt, s).
Proof.
  intros Hty. unfold navigateTo.
  rewrite bool_decide_eq_false_2 by done. by case_bool_decide.
Qed.

(** [fetchLaw] decides the law and the references; the trail handling around
    it changes neither. *)
Lemma navigateTo_law_references id s :
  let s' := exec (navigateTo supabase "code" id) s in
  let f := exec (fetchLaw supabase id) s in
  law s' = law f ∧ references s' = references f ∧ loading s' = loading f.
Proof. unfold exec at 1. rewrite navigateTo_code. done. Qed.

Lemma effect_run n s :
  n ≠ "" →
  effect supabase (Some n) s =
  (Normal tt,
   let s' := exec (fetchLaw supabase n) s in
   mkState (law s') (references s') (loading s')
     (breadcrumb s ++ [mkEntry "code" n]) (console s')).
Proof.
  intros Hn. unfold effect, Js.truthy.
  rewrite bool_decide_eq_false_2 by done. simpl.
  unfold Eff.bind, exec. rewrite fetchLaw_run. simpl.
  repeat case_match; done.
Qed.

Lemma effect_falsy lawNumber s :
  Js.truthy lawNumber = false → effect supabase lawNumber s = (Normal tt, s).
Proof.
  intros Hn. unfold effect. destruct lawNumber as [n|]; [|done].
  by rewrite Hn.
Qed.

(** The trail after a click on a breadcrumb link, in or out of range. *)
Lemma navigateBack_breadcrumb index s :
  breadcrumb (exec (navigateBack supabase index) s) =
  Js.slice (breadcrumb s) 0 (index + 1).
Proof.
  unfold exec, navigateBack, Eff.bind, gets, setBreadcrumb, modify. simpl.
  destruct (Js.index (breadcrumb s) index) as [item|]; [|done].
  repeat case_bool_decide; try done.
  rewrite fetchLaw_run. simpl. repeat case_match; done.
Qed.

End Fetch.

(** [slice(0, index + 1)] for an index of the array keeps its first
    [index + 1] elements. *)
Lemma slice_prefix {A} (arr : list A) (index : Z) :
  0 ≤ index < Z.of_nat (length arr) →
  Js.slice arr 0 (index + 1) = take (S (Z.to_nat index)) arr.
Proof.
  intros Hi. unfold Js.slice, Js.relative.
  destruct (0 <? 0) eqn:H0; [lia|].
  destruct (index + 1 <? 0) eqn:H1; [lia|].
  rewrite Z.min_l by lia. rewrite Z.min_l by lia.
  simpl. f_equal. lia.
Qed.

Lemma index_in_range {A} (arr : list A) (index : Z) :
  0 ≤ index < Z.of_nat (length arr) →
  Js.index arr index = arr !! Z.to_nat index ∧
  is_Some (arr !! Z.to_nat index).
Proof.
  intros Hi. unfold Js.index. destruct (index <? 0) eqn:H0; [lia|].
  split; [done|]. apply lookup_lt_is_Some. lia.
Qed.

Lemma slice_sublist {A} (P : A → Prop) (arr : list A) (start final : Z) :
  Forall P arr → Forall P (Js.slice arr start final).
Proof. intros H. unfold Js.slice. by apply Forall_take, Forall_drop. Qed.

Lemma navigateBack_completion supabase index s :
  0 ≤ index < Z.of_nat (length (breadcrumb s)) →
  completion (navigateBack supabase index) s = Normal tt.
Proof.
  intros Hi. destruct (index_in_range _ _ Hi) as [Hidx [item Hitem]].
  unfold completion, navigateBack, Eff.bind, gets, setBreadcrumb, modify.
  simpl. rewrite Hidx, Hitem.
  repeat case_bool_decide; try done.
  by rewrite fetchLaw_run.
Qed.

(** The two navigations of the viewer reach the store through [fetchLaw]
    only, so what holds of the law and the references after [fetchLaw] holds
    after them. *)
Lemma navigateBack_law_references (supabase : Client) (index : Z) (s : State)
    (n : string) :
  0 ≤ index < Z.of_nat (length (breadcrumb s)) →
  breadcrumb s !! Z.to_nat index = Some (mkEntry "code" n) →
  let s' := exec (navigateBack supabase index) s in
  let f := exec (fetchLaw supabase n) s in
  law s' = law f ∧ references s' = references f ∧ loading s' = loading f.
Proof.
  intros Hi Hn. destruct (index_in_range _ _ Hi) as [Hidx _].
  unfold exec, navigateBack, Eff.bind, gets, setBreadcrumb, modify. simpl.
  rewrite Hidx, Hn. simpl. rewrite !fetchLaw_run. simpl.
  repeat case_match; done.
Qed.

End LawViewerFacts.


(** ** The breadcrumb trail *)

Module Navigation.
Import Store LawViewer LawViewerFacts.

(** C1, as stated, fails on the code: the reference of law 40 to article 12
    of the RNC is on screen, and a click on it leaves the trail as it was, so
    the trail is not the old trail with [{type: 'rnc', id: '12'}] appended. *)
Lemma follow_rnc_not_appended :
  ¬ appended Demo.viewing40
      (exec (navigateTo (postgrest Demo.db) "rnc" "12") Demo.viewing40)
      (mkEntry "rnc" "12").
Proof.
  unfold appended, exec. rewrite navigateTo_other by done. simpl.
  intros H. apply (f_equal length) in H. vm_compute in H. discriminate H.
Qed.

(** C1 (amended): for every viewer state, every store and every reference of
    type 'code', [navigateTo(type, id)] yields the old trail with
    [{type, id}] appended: the length grows by exactly 1, the new last entry
    is [{type, id}], and every earlier entry stays where it was. *)
Theorem follow_code_appends (supabase : Client) (s : State) (type id : string) :
  type = "code" →
  let s' := exec (navigateTo supabase type id) s in
  appended s s' (mkEntry type id) ∧
  length (breadcrumb s') = S (length (breadcrumb s)) ∧
  last (breadcrumb s') = Some (mkEntry type id) ∧
  (∀ k e, breadcrumb s !! k = Some e → breadcrumb s' !! k = Some e).
Proof.
  intros -> s'. subst s'. unfold appended, exec.
  rewrite navigateTo_code. simpl.
  split_and!.
  - done.
  - rewrite length_app. simpl. lia.
  - apply last_snoc.
  - intros k e Hk. by apply lookup_app_l_Some.
Qed.

Lemma follow_code_appends_witness :
  let s' := exec (navigateTo (postgrest Demo.db) "code" "1") Demo.viewing40 in
  appended Demo.viewing40 s' (mkEntry "code" "1") ∧
  length (breadcrumb s') = S (length (breadcrumb Demo.viewing40)) ∧
  last (breadcrumb s') = Some (mkEntry "code" "1") ∧
  (∀ k e, breadcrumb Demo.viewing40 !! k = Some e → breadcrumb s' !! k = Some e).
Proof.
  apply (follow_code_appends (postgrest Demo.db) Demo.viewing40 "code" "1").
  reflexivity.
Defined.

(** The entry of the law the viewer is mounted on enters the trail the same
    way. *)
Lemma mount_appends (supabase : Client) (s : State) (n : string) :
  n ≠ "" →
  appended s (exec (effect supabase (Some n)) s) (mkEntry "code" n).
Proof. intros Hn. unfold appended, exec. by rewrite effect_run. Qed.

(** C2: for every trail of length N and every index with 0 <= index < N,
    [navigateBack(index)] yields a trail of exactly index + 1 entries whose
    last entry is the entry the old trail holds at that index; whatever was
    appended before that entry is kept and whatever was appended after it is
    gone. *)
Theorem jump_truncates (supabase : Client) (s : State) (index : Z) :
  0 ≤ index < Z.of_nat (length (breadcrumb s)) →
  let s' := exec (navigateBack supabase index) s in
  Z.of_nat (length (breadcrumb s')) = index + 1 ∧
  (∃ e, breadcrumb s !! Z.to_nat index = Some e ∧
        last (breadcrumb s') = Some e) ∧
  (∀ before e after,
     breadcrumb s = before ++ e :: after →
     Z.of_nat (length before) = index →
     breadcrumb s' = before ++ [e]) ∧
  completion (navigateBack supabase index) s = Normal tt.
Proof.
  intros Hi s'. subst s'.
  rewrite navigateBack_breadcrumb, slice_prefix by done.
  destruct (index_in_range _ _ Hi) as [_ [e He]].
  split_and!.
  - rewrite length_take. lia.
  - exists e. split; [done|].
    rewrite (take_S_r _ _ e He). apply last_snoc.
  - intros before e' after Heq Hlen. rewrite Heq.
    replace (S (Z.to_nat index)) with (length (before ++ [e'])).
    + by rewrite (cons_middle e' before after), app_assoc, take_app_length.
    + rewrite length_app. simpl. lia.
  - by apply navigateBack_completion.
Qed.

Lemma jump_truncates_witness :
  let s := exec (navigateTo (postgrest Demo.db) "code" "1") Demo.viewing40 in
  let s' := exec (navigateBack (postgrest Demo.db) 0) s in
  Z.of_nat (length (breadcrumb s')) = 0 + 1 ∧
  (∃ e, breadcrumb s !! Z.to_nat 0 = Some e ∧ last (breadcrumb s') = Some e) ∧
  (∀ before e after,
     breadcrumb s = before ++ e :: after →
     Z.of_nat (length before) = 0 →
     breadcrumb s' = before ++ [e]) ∧
  completion (navigateBack (postgrest Demo.db) 0) s = Normal tt.
Proof.
  apply (jump_truncates (postgrest Demo.db)
           (exec (navigateTo (postgrest Demo.db) "code" "1") Demo.viewing40) 0).
  vm_compute. split; [discriminate | reflexivity].
Defined.

(** Round trip: whatever is followed after an entry was appended, a jump
    back to the position of that entry gives the trail as it was right after
    the append. *)
Lemma follow_all_breadcrumb (supabase : Client) (ids : list string)
    (s : State) :
  breadcrumb (follow_all supabase ids s)
  = breadcrumb s ++ (mkEntry "code" <$> ids).
Proof.
  revert s. induction ids as [|i ids IH]; intros s; simpl.
  - by rewrite app_nil_r.
  - unfold follow_all in *. simpl. rewrite IH.
    unfold exec at 1. rewrite navigateTo_code. simpl.
    by rewrite <- app_assoc.
Qed.

Lemma follow_then_jump_back (supabase : Client) (id : string)
    (later : list string) (s : State) :
  let appended_at := Z.of_nat (length (breadcrumb s)) in
  let s1 := exec (navigateTo supabase "code" id) s in
  let s2 := follow_all supabase later s1 in
  breadcrumb (exec (navigateBack supabase appended_at) s2) = breadcrumb s1.
Proof.
  simpl. rewrite navigateBack_breadcrumb, follow_all_breadcrumb.
  unfold exec at 1 2. rewrite navigateTo_code. simpl.
  rewrite slice_prefix.
  - rewrite Nat2Z.id.
    replace (S (length (breadcrumb s)))
      with (length (breadcrumb s ++ [mkEntry "code" id])).
    + by rewrite take_app_length.
    + rewrite length_app. simpl. lia.
  - rewrite !length_app. simpl. lia.
Qed.

(** The scenario of laws 1, 2 and 40: law 40 loads with its one reference,
    following it shows law 1 under the trail 40, 1, and a jump to the first
    entry shows law 40 again under the trail 40. *)
Lemma scenario_follow_and_jump_back :
  let supabase := postgrest Demo.scenario in
  let s0 := exec (effect supabase (Some "40")) initial in
  let s1 := exec (navigateTo supabase "code" "1") s0 in
  let s2 := exec (navigateBack supabase 0) s1 in
  render s0 = LawDetail Demo.law40 [Demo.see_opening_lead] ∧
  render s1 = LawDetail Demo.law1 [] ∧
  breadcrumb s1 = [mkEntry "code" "40"; mkEntry "code" "1"] ∧
  breadcrumb s2 = [mkEntry "code" "40"] ∧
  render s2 = LawDetail Demo.law40 [Demo.see_opening_lead].
Proof. by vm_compute. Qed.

(** Every handler keeps a trail of 'code' entries a trail of 'code' entries. *)
Lemma handle_keeps_code (supabase : Client) (ev : Event) (s : State) :
  Forall (λ e, type e = "code") (breadcrumb s) →
  Forall (λ e, type e = "code") (breadcrumb (exec (handle supabase ev) s)).
Proof.
  intros Hs. destruct ev as [lawNumber | ty i | index]; simpl.
  - destruct (Js.truthy lawNumber) eqn:Htruthy.
    + destruct lawNumber as [n|]; [|done].
      assert (n ≠ "") as Hn.
      { intros ->. done. }
      unfold exec. rewrite effect_run by done. simpl.
      apply Forall_app. split; [done|]. by apply Forall_singleton.
    + unfold exec. by rewrite effect_falsy.
  - destruct (decide (ty = "code")) as [->|Hne].
    + unfold exec. rewrite navigateTo_code. simpl.
      apply Forall_app. split; [done|]. by apply Forall_singleton.
    + unfold exec. by rewrite navigateTo_other.
  - rewrite navigateBack_breadcrumb. by apply slice_sublist.
Qed.

(** C8: in every reachable viewer state every entry of the trail has type
    'code'; [navigateTo] with type 'rnc' completes without changing the
    state at all (trail, law, references, loading flag), so no 'rnc' entry
    ever enters the trail. *)
Theorem trail_holds_code_only :
  (∀ s, reachable s → Forall (λ e, type e = "code") (breadcrumb s)) ∧
  (∀ supabase id s, navigateTo supabase "rnc" id s = (Normal tt, s)) ∧
  (∀ s, reachable s → ∀ id, mkEntry "rnc" id ∉ breadcrumb s).
Proof.
  assert (∀ s, reachable s → Forall (λ e, type e = "code") (breadcrumb s))
    as Hinv.
  { intros s Hs. induction Hs as [|s supabase ev _ IH].
    - constructor.
    - by apply handle_keeps_code. }
  split_and!.
  - exact Hinv.
  - intros supabase id s. by apply navigateTo_other.
  - intros s Hs id Hin.
    pose proof (Hinv s Hs) as Hall. rewrite Forall_forall in Hall.
    specialize (Hall _ Hin). discriminate Hall.
Qed.

Lemma trail_holds_code_only_witness :
  Forall (λ e, type e = "code")
    (breadcrumb
       (exec (handle (postgrest Demo.db) (ClickReference "rnc" "12"))
          Demo.viewing40)) ∧
  navigateTo (postgrest Demo.db) "rnc" "12" Demo.viewing40 =
    (Normal tt, Demo.viewing40).
Proof.
  split.
  - apply (proj1 trail_holds_code_only).
    apply reachable_handle.
    apply (reachable_handle initial (postgrest Demo.db)
             (PropLawNumber (Some "40"))).
    apply reachable_initial.
  - apply (proj1 (proj2 trail_holds_code_only)).
Defined.

(** Once the viewer is mounted on a law number, the trail is never empty:
    the handlers the page offers keep it so. *)
Lemma trail_stays_nonempty (supabase : Client) (ev : Event) (s : State) :
  breadcrumb s ≠ [] → offered s ev →
  breadcrumb (exec (handle supabase ev) s) ≠ [].
Proof.
  intros Hs Hev. destruct ev as [lawNumber | ty i | index]; simpl in *.
  - destruct (Js.truthy lawNumber) eqn:Htruthy.
    + destruct lawNumber as [n|]; [|done].
      assert (n ≠ "") as Hn.
      { intros ->. done. }
      unfold exec. rewrite effect_run by done. simpl.
      intros [? _]%app_eq_nil. done.
    + unfold exec. by rewrite effect_falsy.
  - destruct (decide (ty = "code")) as [->|Hne].
    + unfold exec. rewrite navigateTo_code. simpl.
      intros [? _]%app_eq_nil. done.
    + unfold exec. by rewrite navigateTo_other.
  - rewrite navigateBack_breadcrumb, slice_prefix by done.
    destruct (breadcrumb s); done.
Qed.

(** When the store holds the law asked for and answers both queries, the
    last entry of the trail identifies the law on screen after a followed
    reference. *)
Lemma trail_end_after_loaded_follow (db : Database) (id : string) (d : Law)
    (s : State) :
  filter (λ l, law_number l = id) (code_laws db) = [d] →
  let s' := exec (navigateTo (postgrest db) "code" id) s in
  displayed s' = Some d ∧ last (breadcrumb s') = Some (identity d).
Proof.
  intros Hd s'. subst s'. unfold exec. rewrite navigateTo_code.
  unfold exec. rewrite fetchLaw_run. simpl. rewrite Hd. simpl.
  assert (law_number d = id) as Hnum.
  { assert (d ∈ filter (λ l, law_number l = id) (code_laws db)) as Hin
      by (rewrite Hd; apply list_elem_of_here).
    by apply list_elem_of_filter in Hin as [? _]. }
  split; [done|]. rewrite last_snoc. unfold identity. by rewrite Hnum.
Qed.

Lemma found_number (db : Database) (n : string) (d : Law) :
  filter (λ l, law_number l = n) (code_laws db) = [d] → law_number d = n.
Proof.
  intros Hd.
  assert (d ∈ filter (λ l, law_number l = n) (code_laws db)) as Hin
    by (rewrite Hd; apply list_elem_of_here).
  by apply list_elem_of_filter in Hin as [? _].
Qed.

Lemma fetchLaw_found (db : Database) (n : string) (d : Law) (s : State) :
  filter (λ l, law_number l = n) (code_laws db) = [d] →
  displayed (exec (fetchLaw (postgrest db) n) s) = Some d.
Proof.
  intros Hd. unfold exec. rewrite fetchLaw_run. simpl. by rewrite Hd.
Qed.

(** As long as the store holds every law that is asked for, and answers
    before the next event, every transition the page offers leaves a trail
    whose last entry identifies the document on screen. *)
Lemma trail_end_displayed_when_found (db : Database) (ev : Event) (s : State) :
  Forall (λ e, type e = "code") (breadcrumb s) →
  offered s ev →
  (∀ n, requested s ev = Some n →
        ∃ d, filter (λ l, law_number l = n) (code_laws db) = [d]) →
  (requested s ev = None → trail_end_displayed s) →
  trail_end_displayed (exec (handle (postgrest db) ev) s).
Proof.
  intros Hcode Hev Hfound Hidle.
  destruct ev as [lawNumber | ty i | index]; simpl in *.
  - destruct (Js.truthy lawNumber) eqn:Htruthy.
    + destruct lawNumber as [n|]; [|done].
      assert (n ≠ "") as Hn.
      { intros ->. done. }
      destruct (Hfound n eq_refl) as [d Hd].
      exists d. unfold exec at 1 2. rewrite effect_run by done. simpl.
      pose proof (fetchLaw_found db n d s Hd) as Hshown.
      unfold displayed, render in *. simpl. split; [exact Hshown|].
      rewrite last_snoc. unfold identity. by rewrite (found_number db n d).
    + unfold exec. rewrite effect_falsy by done. by apply Hidle.
  - case_bool_decide as Hty.
    + subst ty. destruct (Hfound i eq_refl) as [d Hd].
      exists d. by apply trail_end_after_loaded_follow.
    + unfold exec. rewrite navigateTo_other by done. by apply Hidle.
  - destruct (index_in_range _ _ Hev) as [Hidx [[ty n] Hitem]].
    rewrite Hidx, Hitem in Hfound, Hidle. simpl in *.
    assert (ty = "code") as ->.
    { rewrite Forall_forall in Hcode.
      apply (Hcode (mkEntry ty n)). by eapply list_elem_of_lookup_2. }
    destruct (Hfound n eq_refl) as [d Hd].
    exists d. split.
    + destruct (navigateBack_law_references (postgrest db) index s n Hev Hitem)
        as (Hlaw & Hrefs & Hload).
      pose proof (fetchLaw_found db n d s Hd) as Hshown.
      unfold displayed, render in *. by rewrite Hlaw, Hrefs, Hload.
    + rewrite navigateBack_breadcrumb, slice_prefix by done.
      rewrite (take_S_r _ _ _ Hitem), last_snoc.
      unfold identity. by rewrite (found_number db n d).
Qed.

(** C7 fails on the code at a followed reference whose target the store does
    not hold: the viewer is mounted on law 40, the link to law 999 is on
    screen and is clicked; the state reached is reachable, law 40 is still
    the document on screen, and the last entry of the trail names law 999. *)
Theorem trail_end_not_displayed :
  let s' := exec (handle (postgrest Demo.db) (ClickReference "code" "999"))
              Demo.viewing40 in
  offered Demo.viewing40 (ClickReference "code" "999") ∧
  reachable s' ∧
  breadcrumb s' = [mkEntry "code" "40"; mkEntry "code" "999"] ∧
  displayed s' = Some Demo.law40 ∧
  last (breadcrumb s') ≠ Some (identity Demo.law40).
Proof.
  split_and!.
  - exists Demo.dangling. split_and!; [|done|done].
    vm_compute.
    apply list_elem_of_further, list_elem_of_further, list_elem_of_here.
  - apply reachable_handle.
    apply (reachable_handle initial (postgrest Demo.db)
             (PropLawNumber (Some "40"))).
    apply reachable_initial.
  - by vm_compute.
  - by vm_compute.
  - vm_compute. discriminate.
Qed.

End Navigation.

(** ** Loading a law and its references *)

Module Loader.
Import Store LawViewer LawViewerFacts.

(** What [.single()] answers on the rows that match. *)
Lemma single_one {A} (row : A) : single [row] = resolved row.
Proof. done. Qed.

Lemma single_none {A} :
  error (single (@nil A)) ≠ None ∧ data (single (@nil A)) = None.
Proof. done. Qed.

(** C6, as stated, fails on the code: article 12 of the RNC exists (exactly
    one row of [rnc_articles] carries the number), it has one outbound
    reference, and the link to it is on screen under law 40. Neither the
    click on that link, [navigateTo('rnc', '12')], nor a direct
    [fetchLaw('12')] loads a document identified by ('rnc', '12'): law 40
    stays on screen, with the references of law 40 and not the reference
    whose source is ('rnc', '12'). *)
Lemma rnc_document_not_loaded :
  let db := Demo.with_article in
  let s := Demo.viewing40_with_article in
  let clicked := exec (navigateTo (postgrest db) "rnc" "12") s in
  let fetched := exec (fetchLaw (postgrest db) "12") s in
  (filter (λ a, article_number a = "12") (rnc_articles db)
     = [Demo.article12]) ∧
  (filter (λ r, from_type r = "rnc" ∧ from_id r = "12") (cross_references db)
     = [Demo.from_article]) ∧
  offered s (ClickReference "rnc" "12") ∧
  ¬ shows clicked "rnc" "12" ∧
  ¬ shows fetched "rnc" "12" ∧
  displayed clicked = Some Demo.law40 ∧
  displayed fetched = Some Demo.law40 ∧
  (Demo.from_article ∉ references clicked) ∧
  (Demo.from_article ∉ references fetched).
Proof.
  assert (∀ s, ¬ shows s "rnc" "12") as Hshows.
  { intros s (d & _ & Hid). unfold identity in Hid. discriminate Hid. }
  split_and!; try apply Hshows; try by vm_compute.
  - exists Demo.to_article. split; [|done].
    vm_compute. apply list_elem_of_further, list_elem_of_here.
  - apply (bool_decide_unpack _). by vm_compute.
  - apply (bool_decide_unpack _). by vm_compute.
Qed.

(** C6 (amended): for every law number (a document of type 'code') that
    identifies a law of the store (exactly one row of [code_laws] carries
    it) and a store that answers, [fetchLaw] leaves on screen that law,
    whose (documentType, number) is ('code', number), together with exactly
    the cross-references whose source is ('code', number), in whatever
    order the store returns them; a law without outbound references gets
    the empty list. *)
Theorem load_returns_document (db : Database) (number : string) (d : Law)
    (s : State) :
  filter (λ l, law_number l = number) (code_laws db) = [d] →
  let s' := exec (fetchLaw (postgrest db) number) s in
  law s' = Some d ∧
  displayed s' = Some d ∧
  shows s' "code" number ∧
  identity d = mkEntry "code" number ∧
  d ∈ code_laws db ∧
  references s' ≡ₚ
    filter (λ r, from_type r = "code" ∧ from_id r = number)
      (cross_references db) ∧
  (∀ r, r ∈ references s' ↔
        r ∈ cross_references db ∧ from_type r = "code" ∧ from_id r = number) ∧
  ((∀ r, r ∈ cross_references db →
         ¬ (from_type r = "code" ∧ from_id r = number)) →
   references s' = []).
Proof.
  intros Hd s'. subst s'. unfold shows, exec. rewrite fetchLaw_run. simpl.
  rewrite Hd. simpl.
  assert (d ∈ filter (λ l, law_number l = number) (code_laws db)) as Hin
    by (rewrite Hd; apply list_elem_of_here).
  apply list_elem_of_filter in Hin as [Hnum Hmem].
  assert (identity d = mkEntry "code" number) as Hid
    by (unfold identity; by rewrite Hnum).
  split_and!; try done.
  - by exists d.
  - intros r. rewrite list_elem_of_filter. tauto.
  - intros Hnone. apply elem_of_nil_inv. intros r.
    rewrite list_elem_of_filter. intros [Hr Hin]. by apply (Hnone r).
Qed.

Lemma load_returns_document_witness :
  let s' := exec (fetchLaw (postgrest Demo.db) "40") initial in
  law s' = Some Demo.law40 ∧
  displayed s' = Some Demo.law40 ∧
  shows s' "code" "40" ∧
  identity Demo.law40 = mkEntry "code" "40" ∧
  Demo.law40 ∈ code_laws Demo.db ∧
  references s' ≡ₚ
    filter (λ r, from_type r = "code" ∧ from_id r = "40")
      (cross_references Demo.db) ∧
  (∀ r, r ∈ references s' ↔
        r ∈ cross_references Demo.db ∧ from_type r = "code" ∧ from_id r = "40") ∧
  ((∀ r, r ∈ cross_references Demo.db →
         ¬ (from_type r = "code" ∧ from_id r = "40")) →
   references s' = []).
Proof.
  apply (load_returns_document Demo.db "40" Demo.law40 initial).
  reflexivity.
Defined.

(** The scenario of laws 1, 2 and 40: law 1 has no outbound reference. *)
Lemma load_without_references :
  references (exec (fetchLaw (postgrest Demo.db) "1") initial) = [] ∧
  displayed (exec (fetchLaw (postgrest Demo.db) "1") initial) = Some Demo.law1.
Proof. by vm_compute. Qed.

(** C9: when a fetch is over, whether the store answered or failed, the
    loading flag is false and nothing thrown has left the function; this
    holds for [fetchLaw], for [fetchLaws] of both list components and for
    [fetchArticles], and comes from the finally block alone. *)
Theorem loading_false_after_fetch (supabase : Client) :
  (∀ number s,
     loading (exec (fetchLaw supabase number) s) = false ∧
     completion (fetchLaw supabase number) s = Normal tt) ∧
  (∀ s,
     CodeLaws.loading (exec (CodeLaws.fetchLaws supabase) s) = false ∧
     completion (CodeLaws.fetchLaws supabase) s = Normal tt) ∧
  (∀ s,
     CodeLaws.loading (exec (CodeLawsByText.fetchLaws supabase) s) = false ∧
     completion (CodeLawsByText.fetchLaws supabase) s = Normal tt) ∧
  (∀ s,
     RncArticles.loading (exec (RncArticles.fetchArticles supabase) s) = false ∧
     completion (RncArticles.fetchArticles supabase) s = Normal tt).
Proof.
  split_and!; intros; split.
  - by apply (finally_establishes (λ s, loading s = false)).
  - by apply catch_absorbs.
  - by apply (finally_establishes (λ s, CodeLaws.loading s = false)).
  - by apply catch_absorbs.
  - by apply (finally_establishes (λ s, CodeLaws.loading s = false)).
  - by apply catch_absorbs.
  - by apply (finally_establishes (λ s, RncArticles.loading s = false)).
  - by apply catch_absorbs.
Qed.

Lemma left_on_error_transfer (supabase : Client) (number : string)
    (s f s' : State) (previous : Law) :
  law s' = law f → references s' = references f → loading s' = loading f →
  left_on_error supabase number s f previous →
  left_on_error supabase number s s' previous.
Proof.
  intros Hlaw Hrefs Hload [Hfirst Hsecond].
  assert (render s' = render f) as Hrender.
  { unfold render. by rewrite Hlaw, Hrefs, Hload. }
  split.
  - intros Herr. rewrite Hlaw, Hrefs, Hrender. by apply Hfirst.
  - intros Hok Herr. rewrite Hlaw, Hrefs, Hrender. by apply Hsecond.
Qed.

(** C10: [fetchLaw] is not atomic on error. From a state with a document on
    screen, for a load started by [fetchLaw] itself, by a followed reference
    or by a breadcrumb link: if the law query fails, the law and the
    references in state stay as they were, and the same document stays on
    screen; if the law query succeeds and the reference query fails, the law
    in state is the new one and the references in state are still those of
    the previous document. *)
Theorem fetch_not_atomic (supabase : Client) (number : string) (s : State)
    (previous : Law) :
  displayed s = Some previous →
  left_on_error supabase number s (exec (fetchLaw supabase number) s) previous ∧
  left_on_error supabase number s
    (exec (navigateTo supabase "code" number) s) previous ∧
  (∀ index,
     0 ≤ index < Z.of_nat (length (breadcrumb s)) →
     breadcrumb s !! Z.to_nat index = Some (mkEntry "code" number) →
     left_on_error supabase number s
       (exec (navigateBack supabase index) s) previous).
Proof.
  intros Hshown.
  assert (left_on_error supabase number s
            (exec (fetchLaw supabase number) s) previous) as Hfetch.
  { unfold left_on_error, exec. rewrite fetchLaw_run. simpl.
    unfold displayed, render in *.
    destruct (loading s) eqn:Hl; [done|].
    destruct (law s) as [l|] eqn:Hlaw; [|done].
    injection Hshown as ->.
    split.
    - intros Herr. destruct (error (law_by_number supabase number)); [|done].
      simpl. done.
    - intros -> Herr.
      destruct (error (references_from supabase "code" number)); [|done].
      simpl. split_and!; try done. by intros d ->. }
  split_and!.
  - exact Hfetch.
  - destruct (navigateTo_law_references supabase number s) as (? & ? & ?).
    by eapply left_on_error_transfer.
  - intros index Hi Hentry.
    destruct (navigateBack_law_references supabase index s number Hi Hentry)
      as (? & ? & ?).
    by eapply left_on_error_transfer.
Qed.

Lemma fetch_not_atomic_witness :
  let s1 := exec (navigateTo (postgrest Demo.db) "code" "999") Demo.viewing40 in
  let s2 := exec (navigateTo (without_references (postgrest Demo.db)) "code" "1")
              Demo.viewing40 in
  (law s1 = Some Demo.law40 ∧ references s1 = references Demo.viewing40 ∧
   render s1 = render Demo.viewing40) ∧
  (law s2 = Some Demo.law1 ∧ references s2 = references Demo.viewing40 ∧
   ∀ d, Some Demo.law1 = Some d →
        render s2 = LawDetail d (references Demo.viewing40)).
Proof.
  split.
  - apply (proj1 (proj1 (proj2
             (fetch_not_atomic (postgrest Demo.db) "999" Demo.viewing40
                Demo.law40 eq_refl)))).
    vm_compute. discriminate.
  - apply (proj2 (proj1 (proj2
             (fetch_not_atomic (without_references (postgrest Demo.db)) "1"
                Demo.viewing40 Demo.law40 eq_refl)))).
    + reflexivity.
    + vm_compute. discriminate.
Defined.

(** On the first load (no law in state yet) a law the store does not hold
    gives the not-found rendering. *)
Lemma first_load_not_found (db : Database) (number : string) (s : State) :
  law s = None →
  filter (λ l, law_number l = number) (code_laws db) = [] →
  render (exec (fetchLaw (postgrest db) number) s) = LoiNonTrouvee ∧
  completion (fetchLaw (postgrest db) number) s = Normal tt.
Proof.
  intros Hlaw Hnone. unfold exec, completion. rewrite fetchLaw_run. simpl.
  rewrite Hnone. simpl. unfold render. simpl. by rewrite Hlaw.
Qed.

(** C4 fails on the code when a document is already on screen: law 40 is
    shown with a link to law 999, which the store does not hold; after the
    click nothing is thrown to the caller, and the viewer shows law 40 again,
    under a trail that ends in law 999, instead of the not-found
    rendering. *)
Theorem missing_law_keeps_previous_document :
  let s' := exec (navigateTo (postgrest Demo.db) "code" "999") Demo.viewing40 in
  filter (λ l, law_number l = "999") (code_laws Demo.db) = [] ∧
  Demo.dangling ∈ links Demo.viewing40 ∧
  completion (navigateTo (postgrest Demo.db) "code" "999") Demo.viewing40
    = Normal tt ∧
  render s' = LawDetail Demo.law40 (references Demo.viewing40) ∧
  render s' ≠ LoiNonTrouvee.
Proof.
  split_and!; try by vm_compute.
  vm_compute.
  apply list_elem_of_further, list_elem_of_further, list_elem_of_here.
Qed.

End Loader.


(** ** The tabs *)

Module Tabs.
Import ArbitragePage.

(** The page with law 40 selected is reached by one click in the list. *)
Lemma page40_reachable : reachable Demo.page40 ∧ selected Demo.page40.
Proof.
  split.
  - apply (reachable_handle initial (SelectLaw "40")).
    + apply reachable_initial.
    + simpl. vm_compute. apply list_elem_of_here.
  - by left.
Qed.

(** C3, as stated, fails on the code: with law 40 selected, a click on the
    RNC tab leaves law 40 selected. *)
Lemma tab_switch_does_not_clear : ¬ clears_selection Demo.page40 "rnc".
Proof. intros [Hlaw _]. vm_compute in Hlaw. discriminate Hlaw. Qed.

(** Back on the first tab the viewer of law 40 is shown, not the list. *)
Lemma tab_switch_back_shows_viewer :
  content (handle (ClickTab "code") (handle (ClickTab "rnc") Demo.page40))
  = [LawViewerOf (Some "40")].
Proof. by vm_compute. Qed.

(** C3 (amended): for every tab-container state, switching the active tab
    changes the active tab only; the selected law and the selected article
    stay as they were. The list view of the new tab is shown exactly when no
    document of that tab is selected; on the first tab with a law selected
    the viewer of that law is shown. *)
Theorem tab_switch_keeps_selection (s : State) (tab : string) :
  let s' := handle (ClickTab tab) s in
  activeTab s' = tab ∧
  selectedLaw s' = selectedLaw s ∧
  selectedArticle s' = selectedArticle s ∧
  content s' =
    (if bool_decide (tab = "code") then
       if Js.truthy (selectedLaw s) then [LawViewerOf (selectedLaw s)]
       else [CodeLawsList]
     else if bool_decide (tab = "rnc") then
       if Js.truthy (selectedArticle s) then [] else [RncArticlesList]
     else []).
Proof.
  simpl. split_and!; try done.
  unfold content, setActiveTab, when. simpl.
  case_bool_decide as Hcode.
  - subst tab. rewrite bool_decide_eq_false_2 by done. simpl.
    by destruct (Js.truthy (selectedLaw s)).
  - simpl. case_bool_decide; simpl; [|done].
    by destruct (Js.truthy (selectedArticle s)).
Qed.

End Tabs.

(** ** The list views *)

Module Lists.
Import Store.

(** The cast [text::integer] on a few texts: a sign and blanks around the
    number are accepted, blanks inside it and a bare sign are not, and the
    value has to fit 32 bits. *)
Lemma to_integer_examples :
  to_integer "10" = Some 10 ∧
  to_integer "+7" = Some 7 ∧
  to_integer " 2" = Some 2 ∧
  to_integer "12 " = Some 12 ∧
  to_integer "-3" = Some (-3) ∧
  to_integer "007" = Some 7 ∧
  to_integer "-2147483648" = Some (-2147483648) ∧
  to_integer "2147483647" = Some 2147483647 ∧
  to_integer "2147483648" = None ∧
  to_integer "99999999999" = None ∧
  to_integer "" = None ∧
  to_integer "-" = None ∧
  to_integer "1 2" = None ∧
  to_integer "12bis" = None ∧
  cast_error "99999999999"
    = Js.PostgrestError "22003" "value is out of range for type integer" ∧
  cast_error "12bis"
    = Js.PostgrestError "22P02" "invalid input syntax for type integer".
Proof. by vm_compute. Qed.

Lemma Sorted_fmap_on {A B} (f : A → B) (P : A → Prop)
    (R1 : relation A) (R2 : relation B) (l : list A) :
  (∀ x y, P x → P y → R1 x y → R2 (f x) (f y)) →
  Forall P l → Sorted R1 l → Sorted R2 (f <$> l).
Proof.
  intros Hf HP HS. induction HS as [|x l HS IH Hd]; simpl.
  - constructor.
  - apply Forall_cons in HP as [Hx Hl]. constructor; [by apply IH|].
    destruct Hd as [|y l' Hxy]; simpl; constructor.
    apply Forall_cons in Hl as [Hy _]. by apply Hf.
Qed.

Global Instance by_key_fst_total {A} : Total (by_key Z.le (@fst Z A)).
Proof. intros x y. unfold by_key. lia. Qed.

(** ORDER BY on the integer cast returns the rows of the table, each once,
    in ascending order of the integers their keys denote. *)
Lemma order_integer_sorted {A} (key : A → string) (rows sorted : list A) :
  order_integer key rows = Some sorted →
  sorted ≡ₚ rows ∧ Sorted (by_key numerically_le key) sorted.
Proof.
  unfold order_integer. intros Hsorted.
  destruct (mapM _ rows) as [keyed|] eqn:Hkeyed; [|done].
  simpl in Hsorted. injection Hsorted as <-.
  apply mapM_Some in Hkeyed.
  assert (keyed.*2 = rows ∧
          Forall (λ p, to_integer (key p.2) = Some p.1) keyed) as [Hrows Hkeys].
  { induction Hkeyed as [|row p rows keyed Hp _ [IH1 IH2]]; [done|].
    destruct (to_integer (key row)) as [n|] eqn:Hn; [|done].
    simpl in Hp. injection Hp as <-. simpl. split; [by f_equal|].
    by constructor. }
  split.
  - rewrite merge_sort_Permutation. by rewrite Hrows.
  - apply (Sorted_fmap_on snd (λ p, to_integer (key p.2) = Some p.1)
             (by_key Z.le fst)).
    + intros x y Hx Hy Hle. unfold by_key, numerically_le in *.
      by rewrite Hx, Hy.
    + eapply Forall_forall. intros p Hp.
      rewrite Forall_forall in Hkeys. apply Hkeys.
      by rewrite <- (merge_sort_Permutation (by_key Z.le fst) keyed).
    + apply Sorted_merge_sort. apply _.
Qed.

(** The state left by the three list fetches, path by path. *)
Lemma fetchLaws_run (supabase : Client) (s : CodeLaws.State) :
  CodeLaws.fetchLaws supabase s =
  (Normal tt,
   let response := laws_ordered supabase "law_number::integer" in
   match error response with
   | Some e =>
       CodeLaws.mkState (CodeLaws.laws s) false
         (CodeLaws.console s ++ [Js.Err "Erreur:" e])
   | None =>
       CodeLaws.mkState (Js.or_empty (data response)) false
         (CodeLaws.console s
          ++ [Js.Log "Lois récupérées:" (Js.opt_length (data response))])
   end).
Proof.
  unfold CodeLaws.fetchLaws, try_catch_finally, Eff.bind, throw_if.
  destruct (error (laws_ordered supabase "law_number::integer")); done.
Qed.

Lemma fetchLaws_by_text_run (supabase : Client) (s : CodeLaws.State) :
  CodeLawsByText.fetchLaws supabase s =
  (Normal tt,
   let response := laws_ordered supabase "law_number" in
   match error response with
   | Some e =>
       CodeLaws.mkState (CodeLaws.laws s) false
         (CodeLaws.console s
          ++ [Js.Err "Erreur lors du chargement des lois:" e])
   | None =>
       CodeLaws.mkState (Js.or_empty (data response)) false (CodeLaws.console s)
   end).
Proof.
  unfold CodeLawsByText.fetchLaws, try_catch_finally, Eff.bind, throw_if.
  destruct (error (laws_ordered supabase "law_number")); done.
Qed.

Lemma fetchArticles_run (supabase : Client) (s : RncArticles.State) :
  RncArticles.fetchArticles supabase s =
  (Normal tt,
   let response := articles_ordered supabase "article_number" in
   match error response with
   | Some e =>
       RncArticles.mkState (RncArticles.articles s) false
         (RncArticles.console s
          ++ [Js.Err "Erreur lors du chargement des articles:" e])
   | None =>
       RncArticles.mkState (Js.or_empty (data response)) false
         (RncArticles.console s)
   end).
Proof.
  unfold RncArticles.fetchArticles, try_catch_finally, Eff.bind, throw_if.
  destruct (error (articles_ordered supabase "article_number")); done.
Qed.

(** The list of laws of CodeLaws.jsx, whose query casts the number: when
    every law number of the table is a decimal number that fits the type
    [integer], the list holds the laws of the table, each once, in ascending
    numeric order. *)
Lemma laws_listed_in_numeric_order (db : Database) (s : CodeLaws.State) :
  Forall (λ l, is_Some (to_integer (law_number l))) (code_laws db) →
  let s' := exec (CodeLaws.fetchLaws (postgrest db)) s in
  CodeLaws.laws s' ≡ₚ code_laws db ∧
  Sorted (by_key numerically_le law_number) (CodeLaws.laws s').
Proof.
  intros Hnum s'. subst s'. unfold exec. rewrite fetchLaws_run. simpl.
  unfold order. rewrite bool_decide_eq_false_2 by done.
  rewrite bool_decide_eq_true_2 by done.
  destruct (order_integer law_number (code_laws db)) as [sorted|] eqn:Hsorted.
  - simpl. by apply order_integer_sorted.
  - exfalso. unfold order_integer in Hsorted.
    destruct (mapM _ (code_laws db)) as [keyed|] eqn:Hkeyed; [done|].
    apply mapM_None in Hkeyed. apply Exists_exists in Hkeyed as (l & Hl & Hnone).
    rewrite Forall_forall in Hnum. destruct (Hnum l Hl) as [n Hn].
    by rewrite Hn in Hnone.
Qed.

(** A list fetch reads nothing of the state it replaces, so fetching again
    from an unchanged store gives the same list. *)
Lemma refetch_same_list (supabase : Client) :
  (∀ s, CodeLaws.laws
          (exec (CodeLaws.fetchLaws supabase)
             (exec (CodeLaws.fetchLaws supabase) s))
        = CodeLaws.laws (exec (CodeLaws.fetchLaws supabase) s)) ∧
  (∀ s, CodeLaws.laws
          (exec (CodeLawsByText.fetchLaws supabase)
             (exec (CodeLawsByText.fetchLaws supabase) s))
        = CodeLaws.laws (exec (CodeLawsByText.fetchLaws supabase) s)) ∧
  (∀ s, RncArticles.articles
          (exec (RncArticles.fetchArticles supabase)
             (exec (RncArticles.fetchArticles supabase) s))
        = RncArticles.articles (exec (RncArticles.fetchArticles supabase) s)).
Proof.
  split_and!; intros s; unfold exec.
  - rewrite !fetchLaws_run. simpl. by case_match.
  - rewrite !fetchLaws_by_text_run. simpl. by case_match.
  - rewrite !fetchArticles_run. simpl. by case_match.
Qed.

(** C5 fails on the code where the query orders by the stored text:
    [fetchArticles], and the [fetchLaws] kept in RncArticles.jsx, order by
    the number column without the integer cast that [fetchLaws] of
    CodeLaws.jsx applies. With documents numbered 1, 2 and 10 both lists
    come back as 1, 10, 2, which is not ascending in the numbers; the list
    of CodeLaws.jsx comes back as 1, 2, 10. *)
Theorem lists_in_text_order :
  let articles :=
    RncArticles.articles
      (exec (RncArticles.fetchArticles (postgrest Demo.numbered))
         RncArticles.initial) in
  let laws_by_text :=
    CodeLaws.laws
      (exec (CodeLawsByText.fetchLaws (postgrest Demo.numbered))
         CodeLaws.initial) in
  let laws :=
    CodeLaws.laws
      (exec (CodeLaws.fetchLaws (postgrest Demo.numbered)) CodeLaws.initial) in
  article_number <$> rnc_articles Demo.numbered = ["1"; "2"; "10"] ∧
  article_number <$> articles = ["1"; "10"; "2"] ∧
  ¬ Sorted numerically_le (article_number <$> articles) ∧
  law_number <$> laws_by_text = ["1"; "10"; "2"] ∧
  ¬ Sorted numerically_le (law_number <$> laws_by_text) ∧
  law_number <$> laws = ["1"; "2"; "10"].
Proof.
  assert (¬ Sorted numerically_le ["1"; "10"; "2"]) as Hunsorted.
  { intros Hsorted.
    apply Sorted_inv in Hsorted as [Hsorted _].
    apply Sorted_inv in Hsorted as [_ Hhd].
    inversion Hhd as [|? ? Hle]; subst.
    vm_compute in Hle. by apply Hle. }
  split_and!.
  - by vm_compute.
  - by vm_compute.
  - match goal with
    | |- ¬ Sorted _ ?l =>
        replace l with ["1"; "10"; "2"] by (by vm_compute)
    end.
    apply Hunsorted.
  - by vm_compute.
  - match goal with
    | |- ¬ Sorted _ ?l =>
        replace l with ["1"; "10"; "2"] by (by vm_compute)
    end.
    apply Hunsorted.
  - by vm_compute.
Qed.

End Lists.

(** ** The law viewer at its edges *)

Module ViewerEdges.
Import Store LawViewer LawViewerFacts.

Lemma index_outside {A} (arr : list A) (index : Z) :
  ¬ (0 ≤ index < Z.of_nat (length arr)) → Js.index arr index = None.
Proof.
  intros Hout. unfold Js.index. destruct (index <? 0) eqn:Hneg; [done|].
  apply lookup_ge_None. lia.
Qed.

Lemma slice_beyond {A} (arr : list A) (index : Z) :
  Z.of_nat (length arr) ≤ index → Js.slice arr 0 (index + 1) = arr.
Proof.
  intros Hi. unfold Js.slice, Js.relative.
  destruct (0 <? 0) eqn:H0; [lia|].
  destruct (index + 1 <? 0) eqn:H1; [lia|].
  rewrite (Z.min_l 0) by lia. rewrite (Z.min_r (index + 1)) by lia.
  rewrite Z.sub_0_r, Nat2Z.id. simpl. by apply take_ge.
Qed.

(** X1: [navigateBack] with an index that is not an index of the trail
    throws a TypeError and starts no load: the law, the references, the
    loading flag and the console stay as they were. The trail has already
    been replaced by [slice(0, index + 1)]: unchanged for an index at or
    past the end, emptied for index -1. *)
Theorem jump_outside_trail (supabase : Client) (s : State) (index : Z) :
  ¬ (0 ≤ index < Z.of_nat (length (breadcrumb s))) →
  let s' := exec (navigateBack supabase index) s in
  (∃ message, completion (navigateBack supabase index) s
              = Thrown (Js.TypeError message)) ∧
  law s' = law s ∧ references s' = references s ∧
  loading s' = loading s ∧ console s' = console s ∧
  breadcrumb s' = Js.slice (breadcrumb s) 0 (index + 1) ∧
  (Z.of_nat (length (breadcrumb s)) ≤ index → s' = s) ∧
  (index = -1 → breadcrumb s' = []).
Proof.
  intros Hout s'. subst s'.
  pose proof (index_outside _ _ Hout) as Hnone.
  unfold exec, completion, navigateBack, Eff.bind, gets, setBreadcrumb, modify.
  simpl. rewrite Hnone. simpl.
  split_and!; try done.
  - by eexists.
  - intros Hi. rewrite slice_beyond by done. by destruct s.
  - intros ->. unfold Js.slice, Js.relative. simpl.
    destruct (breadcrumb s); done.
Qed.

Lemma jump_outside_trail_witness :
  let s' := exec (navigateBack (postgrest Demo.db) 5) Demo.viewing40 in
  (∃ message, completion (navigateBack (postgrest Demo.db) 5) Demo.viewing40
              = Thrown (Js.TypeError message)) ∧
  law s' = law Demo.viewing40 ∧ references s' = references Demo.viewing40 ∧
  loading s' = loading Demo.viewing40 ∧ console s' = console Demo.viewing40 ∧
  breadcrumb s' = Js.slice (breadcrumb Demo.viewing40) 0 (5 + 1) ∧
  (Z.of_nat (length (breadcrumb Demo.viewing40)) ≤ 5 → s' = Demo.viewing40) ∧
  (5 = -1 → breadcrumb s' = []).
Proof.
  apply (jump_outside_trail (postgrest Demo.db) Demo.viewing40 5).
  vm_compute. intros [_ H]. discriminate H.
Defined.

(** X2: jumps compose. A jump to index i followed by a jump to an index
    j <= i leaves the trail a single jump to j leaves, whatever the store
    answers in between; and a jump to the last index leaves the trail as it
    is. *)
Theorem jumps_compose (first second : Client) (s : State) (i j : Z) :
  0 ≤ j ≤ i → i < Z.of_nat (length (breadcrumb s)) →
  breadcrumb (exec (navigateBack second j) (exec (navigateBack first i) s))
  = breadcrumb (exec (navigateBack second j) s) ∧
  (i = Z.of_nat (length (breadcrumb s)) - 1 →
   breadcrumb (exec (navigateBack first i) s) = breadcrumb s).
Proof.
  intros Hj Hi. split.
  - rewrite !navigateBack_breadcrumb.
    rewrite (slice_prefix (breadcrumb s) i) by lia.
    rewrite (slice_prefix (breadcrumb s) j) by lia.
    rewrite slice_prefix.
    + rewrite take_take. f_equal. lia.
    + rewrite length_take. lia.
  - intros ->. rewrite navigateBack_breadcrumb, slice_prefix by lia.
    apply take_ge. lia.
Qed.

Lemma jumps_compose_witness :
  let s := follow_all (postgrest Demo.db) ["1"; "2"] Demo.viewing40 in
  breadcrumb (exec (navigateBack (postgrest Demo.db) 0)
                (exec (navigateBack (postgrest Demo.db) 1) s))
  = breadcrumb (exec (navigateBack (postgrest Demo.db) 0) s) ∧
  (1 = Z.of_nat (length (breadcrumb s)) - 1 →
   breadcrumb (exec (navigateBack (postgrest Demo.db) 1) s) = breadcrumb s).
Proof.
  apply (jumps_compose (postgrest Demo.db) (postgrest Demo.db)
           (follow_all (postgrest Demo.db) ["1"; "2"] Demo.viewing40) 1 0).
  - lia.
  - vm_compute. reflexivity.
Defined.

(** X3: loading a law again from a store that answers the same leaves the
    view as the first load left it: the law, the references, the loading flag
    and the trail are those after one load, whether the load succeeded or
    failed. *)
Theorem fetch_again_same_view (supabase : Client) (number : string)
    (s : State) :
  let once := exec (fetchLaw supabase number) s in
  let twice := exec (fetchLaw supabase number) once in
  law twice = law once ∧ references twice = references once ∧
  loading twice = loading once ∧ breadcrumb twice = breadcrumb once ∧
  render twice = render once.
Proof.
  simpl. unfold exec, render. rewrite !fetchLaw_run. simpl.
  destruct (error (law_by_number supabase number)); simpl; [done|].
  destruct (error (references_from supabase "code" number)); done.
Qed.

(** X4: a load writes to the console only when it fails, and then exactly
    one line, carrying the error of the query that failed first; it never
    writes to the trail. *)
Theorem fetch_logs_first_error (supabase : Client) (number : string)
    (s : State) :
  let s' := exec (fetchLaw supabase number) s in
  let first_error :=
    match error (law_by_number supabase number) with
    | Some e => Some e
    | None => error (references_from supabase "code" number)
    end in
  breadcrumb s' = breadcrumb s ∧
  console s' =
    console s ++
    match first_error with
    | Some e => [Js.Err "Erreur lors du chargement de la loi:" e]
    | None => []
    end.
Proof.
  simpl. unfold exec. rewrite fetchLaw_run. simpl.
  destruct (error (law_by_number supabase number)); simpl; [done|].
  destruct (error (references_from supabase "code" number)); simpl; [done|].
  by rewrite app_nil_r.
Qed.

Lemma head_app_Some {A} (l k : list A) (x : A) :
  head l = Some x → head (l ++ k) = Some x.
Proof. by destruct l. Qed.

Lemma head_take_S {A} (l : list A) (n : nat) (x : A) :
  head l = Some x → head (take (S n) l) = Some x.
Proof. by destruct l. Qed.

Lemma mount_keeps_head (supabase : Client) (lawNumber : option string)
    (s : State) (e : BreadcrumbEntry) :
  head (breadcrumb s) = Some e →
  head (breadcrumb (exec (effect supabase lawNumber) s)) = Some e.
Proof.
  intros Hhead. destruct (Js.truthy lawNumber) eqn:Htruthy.
  - destruct lawNumber as [n|]; [|done].
    assert (n ≠ "") as Hn.
    { intros ->. done. }
    unfold exec. rewrite effect_run by done. simpl.
    by apply head_app_Some.
  - unfold exec. by rewrite effect_falsy.
Qed.

Lemma follow_keeps_head (supabase : Client) (ty i : string) (s : State)
    (e : BreadcrumbEntry) :
  head (breadcrumb s) = Some e →
  head (breadcrumb (exec (navigateTo supabase ty i) s)) = Some e.
Proof.
  intros Hhead. destruct (decide (ty = "code")) as [->|Hne].
  - unfold exec. rewrite navigateTo_code. simpl. by apply head_app_Some.
  - unfold exec. by rewrite navigateTo_other.
Qed.

Lemma jump_keeps_head (supabase : Client) (index : Z) (s : State)
    (e : BreadcrumbEntry) :
  0 ≤ index < Z.of_nat (length (breadcrumb s)) →
  head (breadcrumb s) = Some e →
  head (breadcrumb (exec (navigateBack supabase index) s)) = Some e.
Proof.
  intros Hi Hhead. rewrite navigateBack_breadcrumb, slice_prefix by done.
  by apply head_take_S.
Qed.

(** X5: the first entry of the trail is never replaced: every event the
    viewer offers leaves the trail starting with the entry it started
    with. *)
Theorem trail_keeps_first_entry (supabase : Client) (ev : Event) (s : State)
    (e : BreadcrumbEntry) :
  head (breadcrumb s) = Some e → offered s ev →
  head (breadcrumb (exec (handle supabase ev) s)) = Some e.
Proof.
  intros Hhead Hev.
  destruct ev as [lawNumber | ty i | index]; simpl in *.
  - by apply mount_keeps_head.
  - by apply follow_keeps_head.
  - by apply jump_keeps_head.
Qed.

Lemma trail_keeps_first_entry_witness :
  head (breadcrumb
          (exec (handle (postgrest Demo.db) (ClickBreadcrumb 0)) Demo.viewing40))
  = Some (mkEntry "code" "40").
Proof.
  apply (trail_keeps_first_entry (postgrest Demo.db) (ClickBreadcrumb 0)
           Demo.viewing40 (mkEntry "code" "40")).
  - reflexivity.
  - vm_compute. split; [discriminate | reflexivity].
Defined.

End ViewerEdges.

(** ** The list fetches, all five *)

Module ListFetches.
Import Store Lists.

Lemma reload_run (supabase : Client) (s : CodeLawsReload.State) :
  CodeLawsReload.fetchLaws supabase s =
  (Normal tt,
   let response := laws_ordered supabase "law_number::integer" in
   let seen :=
     CodeLawsReload.console s
     ++ [CodeLawsReload.Say "Fetching laws...";
         CodeLawsReload.Received "Data received:" (data response)] in
   match error response with
   | Some e =>
       CodeLawsReload.mkState (CodeLawsReload.laws s) false
         (seen ++ [CodeLawsReload.Failed "Error:" e;
                   CodeLawsReload.Failed "Erreur:" e])
   | None =>
       CodeLawsReload.mkState (Js.or_empty (data response)) false seen
   end).
Proof.
  unfold CodeLawsReload.fetchLaws, try_catch_finally, Eff.bind.
  destruct (error (laws_ordered supabase "law_number::integer")); simpl.
  - by rewrite <- !app_assoc.
  - by rewrite <- !app_assoc.
Qed.

Lemma select_run (supabase : Client) (s : CodeLawsSelect.State) :
  CodeLawsSelect.fetchLaws supabase s =
  (Normal tt,
   let response := laws_ordered supabase "law_number::integer" in
   match error response with
   | Some e =>
       CodeLawsSelect.mkState (CodeLawsSelect.laws s) false
         (CodeLawsSelect.console s ++ [Js.Err "Erreur:" e])
         (CodeLawsSelect.alerts s)
   | None =>
       CodeLawsSelect.mkState (Js.or_empty (data response)) false
         (CodeLawsSelect.console s
          ++ [Js.Log "Lois récupérées:" (Js.opt_length (data response))])
         (CodeLawsSelect.alerts s
          ++ ["Nombre de lois: "
              +:+ pretty (CodeLawsSelect.length_or_zero (data response))])
   end).
Proof.
  unfold CodeLawsSelect.fetchLaws, try_catch_finally, Eff.bind, throw_if.
  destruct (error (laws_ordered supabase "law_number::integer")); done.
Qed.

(** X6: a list fetch that fails leaves the list on screen as it was (empty
    on a first load); a fetch that succeeds replaces it by the rows of the
    response, or by the empty list when the response carries no rows. This
    holds for the five list fetches of the components. *)
Theorem failed_fetch_keeps_list (supabase : Client) :
  let by_integer := laws_ordered supabase "law_number::integer" in
  let by_text := laws_ordered supabase "law_number" in
  let articles := articles_ordered supabase "article_number" in
  let outcome {A} (response : Response (list A)) (before : list A) :=
    match error response with
    | Some _ => before
    | None => Js.or_empty (data response)
    end in
  (∀ s, CodeLaws.laws (exec (CodeLaws.fetchLaws supabase) s)
        = outcome by_integer (CodeLaws.laws s)) ∧
  (∀ s, CodeLaws.laws (exec (CodeLawsByText.fetchLaws supabase) s)
        = outcome by_text (CodeLaws.laws s)) ∧
  (∀ s, RncArticles.articles (exec (RncArticles.fetchArticles supabase) s)
        = outcome articles (RncArticles.articles s)) ∧
  (∀ s, CodeLawsReload.laws (exec (CodeLawsReload.fetchLaws supabase) s)
        = outcome by_integer (CodeLawsReload.laws s)) ∧
  (∀ s, CodeLawsSelect.laws (exec (CodeLawsSelect.fetchLaws supabase) s)
        = outcome by_integer (CodeLawsSelect.laws s)).
Proof.
  simpl. split_and!; intros s; unfold exec.
  - rewrite fetchLaws_run. simpl. by case_match.
  - rewrite fetchLaws_by_text_run. simpl. by case_match.
  - rewrite fetchArticles_run. simpl. by case_match.
  - rewrite reload_run. simpl. by case_match.
  - rewrite select_run. simpl. by case_match.
Qed.

(** X7: the two list fetches of the reload and the selectable components
    end with the loading flag false and let nothing thrown out; a reload
    that fails writes the error to the console twice, once before the throw
    and once in the catch block. *)
Theorem reload_ends_quietly (supabase : Client) :
  (∀ s, CodeLawsReload.loading (exec (CodeLawsReload.fetchLaws supabase) s)
        = false ∧
        completion (CodeLawsReload.fetchLaws supabase) s = Normal tt) ∧
  (∀ s, CodeLawsSelect.loading (exec (CodeLawsSelect.fetchLaws supabase) s)
        = false ∧
        completion (CodeLawsSelect.fetchLaws supabase) s = Normal tt) ∧
  (∀ s e,
     error (laws_ordered supabase "law_number::integer") = Some e →
     ∃ before,
       CodeLawsReload.console (exec (CodeLawsReload.fetchLaws supabase) s)
       = before ++ [CodeLawsReload.Failed "Error:" e;
                    CodeLawsReload.Failed "Erreur:" e]).
Proof.
  split_and!.
  - intros s. split.
    + by apply (finally_establishes (λ s, CodeLawsReload.loading s = false)).
    + unfold completion. by rewrite reload_run.
  - intros s. split.
    + by apply (finally_establishes (λ s, CodeLawsSelect.loading s = false)).
    + by apply catch_absorbs.
  - intros s e He. unfold exec. rewrite reload_run. simpl. rewrite He.
    simpl. by eexists.
Qed.

Lemma length_or_zero_shown {A} (data : option (list A)) :
  CodeLawsSelect.length_or_zero data = length (Js.or_empty data).
Proof. by destruct data. Qed.

(** X8: the selectable list alerts once per fetch that succeeds, with the
    number of laws it now lists, and does not alert when the fetch fails. *)
Theorem alert_counts_listed_laws (supabase : Client)
    (s : CodeLawsSelect.State) :
  let s' := exec (CodeLawsSelect.fetchLaws supabase) s in
  (error (laws_ordered supabase "law_number::integer") = None →
   CodeLawsSelect.alerts s' =
   CodeLawsSelect.alerts s
   ++ ["Nombre de lois: " +:+ pretty (length (CodeLawsSelect.laws s'))]) ∧
  (error (laws_ordered supabase "law_number::integer") ≠ None →
   CodeLawsSelect.alerts s' = CodeLawsSelect.alerts s).
Proof.
  simpl. unfold exec. rewrite select_run. simpl.
  split.
  - intros ->. simpl. by rewrite length_or_zero_shown.
  - intros Herr. by case_match.
Qed.

Lemma alert_counts_listed_laws_witness :
  CodeLawsSelect.alerts
    (exec (CodeLawsSelect.fetchLaws (postgrest Demo.db)) CodeLawsSelect.initial)
  = [] ++ ["Nombre de lois: "
           +:+ pretty (length (CodeLawsSelect.laws
                 (exec (CodeLawsSelect.fetchLaws (postgrest Demo.db))
                    CodeLawsSelect.initial)))] ∧
  CodeLawsSelect.alerts
    (exec (CodeLawsSelect.fetchLaws unreachable) CodeLawsSelect.initial) = [].
Proof.
  split.
  - apply (proj1 (alert_counts_listed_laws (postgrest Demo.db)
                    CodeLawsSelect.initial)).
    reflexivity.
  - apply (proj2 (alert_counts_listed_laws unreachable CodeLawsSelect.initial)).
    discriminate.
Defined.

(** X9: [testConnection] never throws and writes one line; it answers true
    exactly when the response carries no error, so also for a reachable
    store whose table of laws is empty. *)
Theorem connection_test (response : Response (list (string * string)))
    (console : list SupabaseClient.Line) :
  let result := SupabaseClient.testConnection response console in
  (∃ line, result = (Normal (bool_decide (error response = None)),
                     console ++ [line])) ∧
  (∀ db, completion (SupabaseClient.testConnection
                       (SupabaseClient.first_law db)) console = Normal true).
Proof.
  simpl. split.
  - unfold SupabaseClient.testConnection, SupabaseClient.try_catch,
      SupabaseClient.write, Eff.bind, throw_if, modify, throw, ret.
    destruct (error response); simpl; by eexists.
  - done.
Qed.

End ListFetches.

(** ** The page *)

Module PageFacts.
Import ArbitragePage.

Lemma when_elem (cond : bool) (child x : Child) :
  x ∈ when cond child ↔ cond = true ∧ x = child.
Proof.
  unfold when. destruct cond.
  - rewrite list_elem_of_singleton. tauto.
  - rewrite elem_of_nil. split; [done | by intros [? _]].
Qed.

Lemma viewer_shown (s : State) (lawNumber : option string) :
  LawViewerOf lawNumber ∈ content s ↔
  lawNumber = selectedLaw s ∧ activeTab s = "code" ∧
  Js.truthy (selectedLaw s) = true.
Proof.
  unfold content. rewrite !elem_of_app, !when_elem, !andb_true_iff.
  rewrite !bool_decide_eq_true. split.
  - intros [[_ H]|[[_ H]|[[Hcode Hlaw] H]]]; try done.
    by injection H as ->.
  - intros (-> & Hcode & Hlaw). right. right. done.
Qed.

Lemma laws_shown (s : State) :
  CodeLawsList ∈ content s ↔
  activeTab s = "code" ∧ Js.truthy (selectedLaw s) = false.
Proof.
  unfold content. rewrite !elem_of_app, !when_elem, !andb_true_iff.
  rewrite !bool_decide_eq_true, negb_true_iff. split.
  - intros [[H _]|[[_ H]|[_ H]]]; done.
  - intros H. by left.
Qed.

Lemma articles_shown (s : State) :
  RncArticlesList ∈ content s ↔
  activeTab s = "rnc" ∧ Js.truthy (selectedArticle s) = false.
Proof.
  unfold content. rewrite !elem_of_app, !when_elem, !andb_true_iff.
  rewrite !bool_decide_eq_true, !negb_true_iff. split.
  - intros [[_ H]|[[H _]|[_ H]]]; done.
  - intros H. right. by left.
Qed.

(** X10: in every state of the page, the content area holds at most one
    child, so a list and the viewer are never on screen together; and on a
    tab that is neither 'code' nor 'rnc' it holds nothing. *)
Theorem content_at_most_one (s : State) :
  (length (content s) ≤ 1)%nat ∧
  (activeTab s ≠ "code" → activeTab s ≠ "rnc" → content s = []).
Proof.
  unfold content, when. split.
  - destruct (bool_decide (activeTab s = "code")) eqn:Hcode.
    + apply bool_decide_eq_true in Hcode.
      rewrite (bool_decide_eq_false_2 (activeTab s = "rnc"))
        by (rewrite Hcode; done).
      simpl. destruct (Js.truthy (selectedLaw s)); simpl; lia.
    + simpl. repeat case_match; simpl; lia.
  - intros Hcode Hrnc.
    by rewrite !bool_decide_eq_false_2.
Qed.

(** X11: whatever is clicked, no article is ever selected (the article list
    is not given a way to select one that it calls) and the active tab is
    one of the three buttons; so the 'rnc' tab always shows the article list
    and the 'categories' tab always shows nothing. *)
Theorem page_invariants (s : State) :
  reachable s →
  selectedArticle s = None ∧
  activeTab s ∈ ["code"; "rnc"; "categories"] ∧
  (activeTab s = "rnc" → content s = [RncArticlesList]) ∧
  (activeTab s = "categories" → content s = []).
Proof.
  intros Hs.
  assert (selectedArticle s = None ∧
          activeTab s ∈ ["code"; "rnc"; "categories"]) as [Harticle Htab].
  { induction Hs as [|s ev _ [IH1 IH2] Hev].
    - split; [done|]. apply list_elem_of_here.
    - destruct ev as [tab | n |]; simpl in *; done. }
  split_and!; try done.
  - intros Hrnc. unfold content, when. rewrite Hrnc, Harticle. done.
  - intros Hcat. unfold content, when. rewrite Hcat. done.
Qed.

Lemma page_invariants_witness :
  let s := handle (ClickTab "rnc") Demo.page40 in
  selectedArticle s = None ∧
  activeTab s ∈ ["code"; "rnc"; "categories"] ∧
  (activeTab s = "rnc" → content s = [RncArticlesList]) ∧
  (activeTab s = "categories" → content s = []).
Proof.
  apply (page_invariants (handle (ClickTab "rnc") Demo.page40)).
  apply reachable_handle.
  - apply (reachable_handle initial (SelectLaw "40")).
    + apply reachable_initial.
    + vm_compute. apply list_elem_of_here.
  - simpl. apply list_elem_of_further, list_elem_of_here.
Defined.

End PageFacts.

(** ** The page with its mounted children *)

Module TreeFacts.
Import Store ArbitragePage ArbitrageTree PageFacts.

Lemma render_mounted (supabase : Client) (t : Tree) (page' : State) :
  mounted_as_rendered (render supabase t page').
Proof.
  unfold mounted_as_rendered, render. simpl.
  split_and!; case_decide; split; intros Hx; try done; by destruct Hx.
Qed.

Lemma inViewer_mounted (supabase : Client) (ev : LawViewer.Event) (t : Tree) :
  mounted_as_rendered t → mounted_as_rendered (inViewer supabase ev t).
Proof.
  unfold mounted_as_rendered, inViewer. simpl.
  intros (Hlaws & Harticles & Hviewer).
  split_and!; try done. by rewrite fmap_is_Some.
Qed.

Lemma truthy_Some (lawNumber : option string) :
  Js.truthy lawNumber = true → ∃ n, lawNumber = Some n ∧ n ≠ "".
Proof.
  destruct lawNumber as [n|]; [|done]. simpl.
  intros H. exists n. split; [done|]. intros ->. done.
Qed.

Lemma mountViewer_trail (supabase : Client) (n : string) :
  n ≠ "" →
  LawViewer.breadcrumb (mountViewer supabase (Some n))
  = [LawViewer.mkEntry "code" n].
Proof.
  intros Hn. unfold mountViewer, exec.
  by rewrite LawViewerFacts.effect_run.
Qed.

Lemma render_viewer_on_selected (supabase : Client) (t : Tree) (page' : State) :
  viewer_on_selected t →
  (is_Some (viewer t) → Js.truthy (selectedLaw page') = true →
   selectedLaw page' = selectedLaw (page t)) →
  viewer_on_selected (render supabase t page').
Proof.
  intros Hon Hsame v'. unfold render. simpl.
  case_decide as Hshown; [|done].
  apply viewer_shown in Hshown as (_ & Hcode & Htruthy).
  destruct (truthy_Some _ Htruthy) as (n & Hn & Hne).
  intros Hv'. injection Hv' as <-. exists n. split_and!; try done.
  destruct (viewer t) as [v|] eqn:Hv.
  - assert (selectedLaw page' = selectedLaw (page t)) as Heq
      by (apply Hsame; [by eexists | done]).
    unfold keepViewer. rewrite decide_True by done.
    destruct (Hon v Hv) as (n' & Hn' & _ & Hhead).
    rewrite Heq, Hn' in Hn. by injection Hn as <-.
  - rewrite Hn, mountViewer_trail by done. done.
Qed.

Lemma render_keeps_article (supabase : Client) (t : Tree) (page' : State) :
  selectedArticle page' = None →
  selectedArticle (page (render supabase t page')) = None.
Proof. done. Qed.

(** The three facts every tree of a session satisfies. *)
Lemma session_invariants (t : Tree) :
  reachable t →
  mounted_as_rendered t ∧ viewer_on_selected t ∧
  selectedArticle (page t) = None.
Proof.
  intros Ht. induction Ht as [supabase | supabase t ev _ (Hm & Hon & Ha) Hev].
  - split_and!.
    + apply render_mounted.
    + apply render_viewer_on_selected; [|done]. by intros v Hv.
    + done.
  - destruct ev as [tab | law | | ty i | index]; simpl in *.
    + split_and!; [apply render_mounted | | done].
      by apply render_viewer_on_selected.
    + split_and!; [apply render_mounted | | done].
      apply render_viewer_on_selected; [done|].
      destruct Hev as (l & Hl & _).
      destruct Hm as (Hlaws & _ & Hviewer).
      assert (CodeLawsList ∈ content (page t)) as Hshown
        by (apply Hlaws; by rewrite Hl).
      apply laws_shown in Hshown as [_ Hfalsy].
      intros Hsome. apply Hviewer, viewer_shown in Hsome as (_ & _ & Htruthy).
      by rewrite Hfalsy in Htruthy.
    + split_and!; [apply render_mounted | | done].
      apply render_viewer_on_selected; [done|]. by intros _ H.
    + split_and!; [by apply inViewer_mounted | | done].
      intros v'. unfold inViewer. simpl.
      destruct (viewer t) as [v|] eqn:Hv; [|done].
      simpl. intros Hv'. injection Hv' as <-.
      destruct (Hon v Hv) as (n & Hn & Hne & Hhead).
      exists n. split_and!; try done.
      by apply ViewerEdges.follow_keeps_head.
    + split_and!; [by apply inViewer_mounted | | done].
      intros v'. unfold inViewer. simpl.
      destruct Hev as (v & Hv & Hi). rewrite Hv. simpl.
      intros Hv'. injection Hv' as <-.
      destruct (Hon v Hv) as (n & Hn & Hne & Hhead).
      exists n. split_and!; try done.
      by apply ViewerEdges.jump_keeps_head.
Qed.

(** X12: in every tree of a session the children that hold a state are
    exactly the children the page renders, and the trail of the mounted
    viewer starts with the law selected on the page, whose number is not
    empty: whatever was followed or jumped to, the first breadcrumb is the
    law chosen in the list. *)
Theorem viewer_trail_starts_at_selection (t : Tree) :
  reachable t →
  mounted_as_rendered t ∧
  (∀ v, viewer t = Some v →
        ∃ n, selectedLaw (page t) = Some n ∧ n ≠ "" ∧
             activeTab (page t) = "code" ∧
             head (LawViewer.breadcrumb v)
             = Some (LawViewer.mkEntry "code" n)).
Proof.
  intros Ht. destruct (session_invariants t Ht) as (Hm & Hon & _).
  split; [done|]. intros v Hv.
  destruct (Hon v Hv) as (n & Hn & Hne & Hhead).
  exists n. split_and!; try done.
  destruct Hm as (_ & _ & Hviewer).
  assert (is_Some (viewer t)) as Hsome by (by rewrite Hv).
  by apply Hviewer, viewer_shown in Hsome as (_ & Hcode & _).
Qed.

Lemma if_shown_alone {A} (x y : Child) (a b : A) :
  (if decide (x ∈ [y]) then a else b) = if decide (x = y) then a else b.
Proof.
  destruct (decide (x = y)) as [->|Hne].
  - rewrite decide_True; [done | apply list_elem_of_here].
  - rewrite decide_False; [done | by rewrite list_elem_of_singleton].
Qed.

Lemma opened_on_law40 :
  reachable (handle (postgrest Demo.db) (ClickLaw Demo.law40)
               (first (postgrest Demo.db))).
Proof.
  apply reachable_handle; [apply reachable_first|].
  eexists. split; [reflexivity|]. vm_compute.
  apply list_elem_of_further, list_elem_of_further, list_elem_of_here.
Qed.

Lemma viewer_trail_starts_at_selection_witness :
  let t := handle (postgrest Demo.db) (ClickLaw Demo.law40)
             (first (postgrest Demo.db)) in
  mounted_as_rendered t ∧
  (∀ v, viewer t = Some v →
        ∃ n, selectedLaw (page t) = Some n ∧ n ≠ "" ∧
             activeTab (page t) = "code" ∧
             head (LawViewer.breadcrumb v)
             = Some (LawViewer.mkEntry "code" n)).
Proof.
  apply (viewer_trail_starts_at_selection
           (handle (postgrest Demo.db) (ClickLaw Demo.law40)
              (first (postgrest Demo.db)))).
  apply reachable_handle; [apply reachable_first|].
  eexists. split; [reflexivity|]. vm_compute.
  apply list_elem_of_further, list_elem_of_further, list_elem_of_here.
Defined.

(** What the page shows while the viewer is mounted. *)
Lemma viewer_mounted_page (t : Tree) :
  reachable t → is_Some (viewer t) →
  ∃ n, selectedLaw (page t) = Some n ∧ n ≠ "" ∧ activeTab (page t) = "code" ∧
       selectedArticle (page t) = None ∧
       lawsList t = None ∧ articlesList t = None.
Proof.
  intros Ht Hsome. destruct (session_invariants t Ht) as (Hm & Hon & Ha).
  destruct Hm as (Hlaws & Harticles & Hviewer).
  pose proof Hsome as Hshown.
  apply Hviewer, viewer_shown in Hshown as (_ & Hcode & Htruthy).
  destruct (truthy_Some _ Htruthy) as (n & Hn & Hne).
  exists n. split_and!; try done.
  - apply eq_None_not_Some. rewrite Hlaws, laws_shown.
    intros [_ Hfalsy]. by rewrite Hfalsy in Htruthy.
  - apply eq_None_not_Some. rewrite Harticles, articles_shown.
    intros [Hrnc _]. by rewrite Hcode in Hrnc.
Qed.

(** X13: leaving the tab of the laws discards the viewer, and coming back
    mounts it anew on the selected law: it loads that law again, and its
    trail is that single law, whatever had been followed before. Meanwhile
    the article list was mounted and fetched. *)
Theorem tab_round_trip_forgets_trail (leaving returning : Client) (t : Tree) :
  reachable t → is_Some (viewer t) →
  let away := handle leaving (ClickTab "rnc") t in
  let back := handle returning (ClickTab "code") away in
  viewer away = None ∧
  articlesList away = Some (mountArticles leaving) ∧
  ∃ n, selectedLaw (page t) = Some n ∧
       viewer back = Some (mountViewer returning (Some n)) ∧
       LawViewer.breadcrumb (mountViewer returning (Some n))
       = [LawViewer.mkEntry "code" n].
Proof.
  intros Ht Hsome.
  destruct (viewer_mounted_page t Ht Hsome)
    as (n & Hn & Hne & Hcode & Ha & Hlaws & Harticles).
  simpl. unfold render. simpl.
  assert (content (setActiveTab "rnc" (page t)) = [RncArticlesList]) as Haway.
  { unfold content, when, setActiveTab. simpl. by rewrite Ha. }
  assert (content (setActiveTab "code" (setActiveTab "rnc" (page t)))
          = [LawViewerOf (Some n)]) as Hback.
  { unfold content, when, setActiveTab. simpl. by rewrite Hn; simpl;
      rewrite bool_decide_eq_false_2. }
  rewrite !Haway, !Hback, Hn, Harticles. rewrite !if_shown_alone. simpl.
  split_and!; try done.
  exists n. split_and!; try done.
  - by rewrite decide_True.
  - by apply mountViewer_trail.
Qed.

Lemma tab_round_trip_forgets_trail_witness :
  let leaving := postgrest Demo.db in
  let returning := postgrest Demo.db in
  let t := handle (postgrest Demo.db) (ClickReference "code" "1")
             (handle (postgrest Demo.db) (ClickLaw Demo.law40)
                (first (postgrest Demo.db))) in
  let away := handle leaving (ClickTab "rnc") t in
  let back := handle returning (ClickTab "code") away in
  viewer away = None ∧
  articlesList away = Some (mountArticles leaving) ∧
  ∃ n, selectedLaw (page t) = Some n ∧
       viewer back = Some (mountViewer returning (Some n)) ∧
       LawViewer.breadcrumb (mountViewer returning (Some n))
       = [LawViewer.mkEntry "code" n].
Proof.
  apply (tab_round_trip_forgets_trail (postgrest Demo.db) (postgrest Demo.db)
           (handle (postgrest Demo.db) (ClickReference "code" "1")
              (handle (postgrest Demo.db) (ClickLaw Demo.law40)
                 (first (postgrest Demo.db))))).
  - apply reachable_handle; [apply opened_on_law40|].
    eexists. split; [reflexivity|].
    exists Demo.see_opening_lead. split_and!; [|done|done].
    vm_compute. apply list_elem_of_here.
  - by eexists.
Defined.



End TreeFacts.

(** ** The view of the articles with their references *)

Module ViewFacts.
Import Schema.

Lemma eq_Some_true {A} `{EqDecision A} (x : option A) (b : A) :
  Sql.eq x (Some b) = true ↔ x = Some b.
Proof.
  unfold Sql.eq. destruct x as [a|]; [|done].
  rewrite bool_decide_eq_true. split; [by intros -> | by intros [= ->]].
Qed.

Lemma unique_column_inj {A K} (key : A → K) (rows : list A) (r1 r2 : A) :
  Sql.unique_column key rows → r1 ∈ rows → r2 ∈ rows → key r1 = key r2 →
  r1 = r2.
Proof.
  unfold Sql.unique_column. induction rows as [|r rows IH]; simpl.
  - intros _ H. by apply elem_of_nil in H.
  - rewrite NoDup_cons, !elem_of_cons. intros [Hnotin Hnodup] H1 H2 Hkey.
    destruct H1 as [->|H1], H2 as [->|H2]; try done.
    + exfalso. apply Hnotin. rewrite Hkey. by apply list_elem_of_fmap_2.
    + exfalso. apply Hnotin. rewrite <- Hkey. by apply list_elem_of_fmap_2.
    + by apply IH.
Qed.

Lemma unique_column_rows {A K} (key : A → K) (rows : list A) :
  Sql.unique_column key rows → NoDup rows.
Proof. apply NoDup_fmap_1. Qed.

Section Arrays.
Variable db : Tables.

Lemma references_elem (a : ArticleRow) (x : string) :
  x ∈ references_of db a ↔
  ∃ ar target, ar ∈ article_references db ∧ target ∈ articles db ∧
               r_target_article_id ar = Some (a_id target) ∧
               r_source_article_id ar = Some (a_id a) ∧
               x = a_article_id target.
Proof.
  unfold references_of. rewrite list_elem_of_bind. split.
  - intros (ar & Hx & Har). apply list_elem_of_bind in Hx as (t & Hx & Ht).
    destruct (_ && _) eqn:Hcond; [|by apply elem_of_nil in Hx].
    apply andb_true_iff in Hcond as [Htarget Hsource].
    apply eq_Some_true in Htarget. apply eq_Some_true in Hsource.
    apply list_elem_of_singleton in Hx. by exists ar, t.
  - intros (ar & t & Har & Ht & Htarget & Hsource & ->).
    exists ar. split; [|done]. apply list_elem_of_bind. exists t.
    split; [|done].
    apply eq_Some_true in Htarget. apply eq_Some_true in Hsource.
    rewrite Htarget, Hsource. apply list_elem_of_here.
Qed.

Lemma referenced_by_elem (a : ArticleRow) (x : string) :
  x ∈ referenced_by_of db a ↔
  ∃ ar source, ar ∈ article_references db ∧ source ∈ articles db ∧
               r_source_article_id ar = Some (a_id source) ∧
               r_target_article_id ar = Some (a_id a) ∧
               x = a_article_id source.
Proof.
  unfold referenced_by_of. rewrite list_elem_of_bind. split.
  - intros (ar & Hx & Har). apply list_elem_of_bind in Hx as (t & Hx & Ht).
    destruct (_ && _) eqn:Hcond; [|by apply elem_of_nil in Hx].
    apply andb_true_iff in Hcond as [Hsource Htarget].
    apply eq_Some_true in Htarget. apply eq_Some_true in Hsource.
    apply list_elem_of_singleton in Hx. by exists ar, t.
  - intros (ar & t & Har & Ht & Hsource & Htarget & ->).
    exists ar. split; [|done]. apply list_elem_of_bind. exists t.
    split; [|done].
    apply eq_Some_true in Htarget. apply eq_Some_true in Hsource.
    rewrite Htarget, Hsource. apply list_elem_of_here.
Qed.

Lemma left_join_left {A B} (on : A → B → bool) (l : list A) (r : list B)
    (a : A) (m : option B) :
  (a, m) ∈ Sql.left_join on l r → a ∈ l.
Proof.
  unfold Sql.left_join. rewrite list_elem_of_bind.
  intros (a' & Hin & Ha'). destruct (filter _ r) as [|b bs].
  - apply list_elem_of_singleton in Hin. by injection Hin as -> ->.
  - apply list_elem_of_fmap in Hin as (b' & Heq & _). by injection Heq as -> _.
Qed.

(** Every row of the view is the row of an article of the table, with the
    three arrays of that article. *)
Lemma view_row (r : ViewRow) :
  r ∈ view_articles_with_references db →
  ∃ a, a ∈ articles db ∧ v_id r = a_id a ∧ v_article_id r = a_article_id a ∧
       v_references r = references_of db a ∧
       v_referenced_by r = referenced_by_of db a ∧
       v_categories r = categories_of db a.
Proof.
  unfold view_articles_with_references. rewrite list_elem_of_bind.
  intros ([a m] & Hr & Hjoin). apply list_elem_of_singleton in Hr. subst r.
  apply left_join_left in Hjoin. by exists a.
Qed.

End Arrays.

(** X15: in the view, the two reference columns are converse: the
    identifier of one row is in the references of another exactly when the
    identifier of the latter is in the former's referenced_by. This rests on
    [article_id] being UNIQUE. *)
Theorem references_converse (db : Tables) (ra rb : ViewRow) :
  Sql.unique_column a_article_id (articles db) →
  ra ∈ view_articles_with_references db →
  rb ∈ view_articles_with_references db →
  v_article_id rb ∈ v_references ra ↔ v_article_id ra ∈ v_referenced_by rb.
Proof.
  intros Hunique Hra Hrb.
  apply view_row in Hra as (a & Ha & _ & -> & -> & _ & _).
  apply view_row in Hrb as (b & Hb & _ & -> & _ & -> & _).
  rewrite references_elem, referenced_by_elem. split.
  - intros (ar & t & Har & Ht & Htarget & Hsource & Hid).
    assert (b = t) as <-
      by (by apply (unique_column_inj a_article_id (articles db))).
    by exists ar, a.
  - intros (ar & s & Har & Hs & Hsource & Htarget & Hid).
    assert (a = s) as <-
      by (by apply (unique_column_inj a_article_id (articles db))).
    by exists ar, b.
Qed.

Lemma sample_keys : keys sample.
Proof.
  unfold keys, Sql.unique_column. split_and!.
  - apply (bool_decide_unpack _). by vm_compute.
  - apply (bool_decide_unpack _). by vm_compute.
  - apply (bool_decide_unpack _). by vm_compute.
  - intros r1 r2 H1 H2 Hsome Heq.
    vm_compute in H1, H2.
    repeat (apply elem_of_cons in H1 as [->|H1]);
      try (by apply elem_of_nil in H1);
      repeat (apply elem_of_cons in H2 as [->|H2]);
      try (by apply elem_of_nil in H2);
      try done; try (by destruct Hsome).
Qed.

Lemma references_converse_witness :
  v_article_id (view_row_of sample article1 None)
    ∈ v_references (view_row_of sample article40 (Some metadata40)) ↔
  v_article_id (view_row_of sample article40 (Some metadata40))
    ∈ v_referenced_by (view_row_of sample article1 None).
Proof.
  apply (references_converse sample
           (view_row_of sample article40 (Some metadata40))
           (view_row_of sample article1 None)).
  - apply sample_keys.
  - vm_compute. apply list_elem_of_further, list_elem_of_further,
      list_elem_of_here.
  - vm_compute. apply list_elem_of_here.
Defined.

Lemma references_nodup (db : Tables) (a : ArticleRow) :
  keys db → NoDup (references_of db a).
Proof.
  intros (Hid & Harticle & Hrid & Hpair). unfold references_of.
  assert (∀ ar y,
            y ∈ (articles db ≫= λ target,
                   if Sql.eq (r_target_article_id ar) (Some (a_id target))
                      && Sql.eq (r_source_article_id ar) (Some (a_id a))
                   then [a_article_id target] else []) →
            ∃ t, t ∈ articles db ∧
                 r_target_article_id ar = Some (a_id t) ∧
                 r_source_article_id ar = Some (a_id a) ∧
                 y = a_article_id t) as Hinner.
  { intros ar y Hy. apply list_elem_of_bind in Hy as (t & Hy & Ht).
    destruct (_ && _) eqn:Hcond; [|by apply elem_of_nil in Hy].
    apply andb_true_iff in Hcond as [Htarget Hsource].
    apply eq_Some_true in Htarget. apply eq_Some_true in Hsource.
    apply list_elem_of_singleton in Hy. by exists t. }
  apply NoDup_bind.
  - intros ar1 ar2 y Har1 Har2 Hy1 Hy2.
    apply Hinner in Hy1 as (t1 & Ht1 & Htarget1 & Hsource1 & ->).
    apply Hinner in Hy2 as (t2 & Ht2 & Htarget2 & Hsource2 & Heq).
    assert (t1 = t2) as <-
      by (by apply (unique_column_inj a_article_id (articles db))).
    apply Hpair; try done.
    + unfold reference_pair. rewrite Hsource1, Htarget1. by eexists.
    + unfold reference_pair.
      by rewrite Hsource1, Htarget1, Hsource2, Htarget2.
  - intros ar _. apply NoDup_bind.
    + intros t1 t2 y Ht1 Ht2 Hy1 Hy2.
      destruct (_ && _); [|by apply elem_of_nil in Hy1].
      destruct (_ && _); [|by apply elem_of_nil in Hy2].
      apply list_elem_of_singleton in Hy1. apply list_elem_of_singleton in Hy2.
      apply (unique_column_inj a_article_id (articles db)); try done.
      by rewrite <- Hy1, <- Hy2.
    + intros t _. destruct (_ && _); [apply NoDup_singleton | apply NoDup_nil_2].
    + by apply (unique_column_rows a_id).
  - by apply (unique_column_rows r_id).
Qed.

Lemma referenced_by_nodup (db : Tables) (a : ArticleRow) :
  keys db → NoDup (referenced_by_of db a).
Proof.
  intros (Hid & Harticle & Hrid & Hpair). unfold referenced_by_of.
  assert (∀ ar y,
            y ∈ (articles db ≫= λ source,
                   if Sql.eq (r_source_article_id ar) (Some (a_id source))
                      && Sql.eq (r_target_article_id ar) (Some (a_id a))
                   then [a_article_id source] else []) →
            ∃ t, t ∈ articles db ∧
                 r_source_article_id ar = Some (a_id t) ∧
                 r_target_article_id ar = Some (a_id a) ∧
                 y = a_article_id t) as Hinner.
  { intros ar y Hy. apply list_elem_of_bind in Hy as (t & Hy & Ht).
    destruct (_ && _) eqn:Hcond; [|by apply elem_of_nil in Hy].
    apply andb_true_iff in Hcond as [Hsource Htarget].
    apply eq_Some_true in Htarget. apply eq_Some_true in Hsource.
    apply list_elem_of_singleton in Hy. by exists t. }
  apply NoDup_bind.
  - intros ar1 ar2 y Har1 Har2 Hy1 Hy2.
    apply Hinner in Hy1 as (t1 & Ht1 & Hsource1 & Htarget1 & ->).
    apply Hinner in Hy2 as (t2 & Ht2 & Hsource2 & Htarget2 & Heq).
    assert (t1 = t2) as <-
      by (by apply (unique_column_inj a_article_id (articles db))).
    apply Hpair; try done.
    + unfold reference_pair. rewrite Hsource1, Htarget1. by eexists.
    + unfold reference_pair.
      by rewrite Hsource1, Htarget1, Hsource2, Htarget2.
  - intros ar _. apply NoDup_bind.
    + intros t1 t2 y Ht1 Ht2 Hy1 Hy2.
      destruct (_ && _); [|by apply elem_of_nil in Hy1].
      destruct (_ && _); [|by apply elem_of_nil in Hy2].
      apply list_elem_of_singleton in Hy1. apply list_elem_of_singleton in Hy2.
      apply (unique_column_inj a_article_id (articles db)); try done.
      by rewrite <- Hy1, <- Hy2.
    + intros t _. destruct (_ && _); [apply NoDup_singleton | apply NoDup_nil_2].
    + by apply (unique_column_rows a_id).
  - by apply (unique_column_rows r_id).
Qed.

(** X16: under the keys the schema declares, no row of the view lists an
    article twice in its references or in its referenced_by. *)
Theorem reference_arrays_nodup (db : Tables) (r : ViewRow) :
  keys db → r ∈ view_articles_with_references db →
  NoDup (v_references r) ∧ NoDup (v_referenced_by r).
Proof.
  intros Hkeys Hr.
  apply view_row in Hr as (a & _ & _ & _ & -> & -> & _).
  split; [by apply references_nodup | by apply referenced_by_nodup].
Qed.

Lemma reference_arrays_nodup_witness :
  NoDup (v_references (view_row_of sample article40 (Some metadata40))) ∧
  NoDup (v_referenced_by (view_row_of sample article40 (Some metadata40))).
Proof.
  apply (reference_arrays_nodup sample
           (view_row_of sample article40 (Some metadata40))).
  - apply sample_keys.
  - vm_compute. apply list_elem_of_further, list_elem_of_further,
      list_elem_of_here.
Defined.

(** The rows the view gives for one article: one per metadata row of the
    article, one with NULLs when it has none. *)
Lemma view_cons (db : Tables) (a : ArticleRow) (rest : list ArticleRow) :
  (Sql.left_join (λ a m, Sql.eq (Some (a_id a)) (m_article_id m))
     (a :: rest) (article_metadata db)
   ≫= λ '(a, m), [view_row_of db a m])
  = (view_row_of db a
       <$> match filter (λ m, Sql.eq (Some (a_id a)) (m_article_id m) = true)
                   (article_metadata db) with
           | [] => [None]
           | matches => Some <$> matches
           end)
    ++ (Sql.left_join (λ a m, Sql.eq (Some (a_id a)) (m_article_id m))
          rest (article_metadata db)
        ≫= λ '(a, m), [view_row_of db a m]).
Proof.
  unfold Sql.left_join at 1. rewrite bind_cons, bind_app. f_equal.
  destruct (filter _ (article_metadata db)) as [|m ms]; [done|].
  generalize (m :: ms). intros l. induction l as [|x l IH]; [done|].
  csimpl. by rewrite IH.
Qed.

Lemma metadata_match (a : ArticleRow) (m : MetadataRow) :
  Sql.eq (Some (a_id a)) (m_article_id m) = true ↔
  m_article_id m = Some (a_id a).
Proof.
  unfold Sql.eq. destruct (m_article_id m) as [k|]; [|done].
  rewrite bool_decide_eq_true. split; [by intros -> | by intros [= ->]].
Qed.

Lemma metadata_match_source (a : ArticleRow) (ar : ReferenceRow) :
  Sql.eq (Some (a_id a)) (r_source_article_id ar) = true ↔
  r_source_article_id ar = Some (a_id a).
Proof.
  unfold Sql.eq. destruct (r_source_article_id ar) as [k|]; [|done].
  rewrite bool_decide_eq_true. split; [by intros -> | by intros [= ->]].
Qed.

Lemma rows_counted (db : Tables) (a : ArticleRow) (l : list ArticleRow) :
  NoDup (a_id <$> l) →
  length (filter (λ r, v_id r = a_id a)
            (Sql.left_join (λ a m, Sql.eq (Some (a_id a)) (m_article_id m))
               l (article_metadata db)
             ≫= λ '(a, m), [view_row_of db a m]))
  = if decide (a_id a ∈ a_id <$> l)
    then Nat.max 1 (length (filter (λ m, m_article_id m = Some (a_id a))
                              (article_metadata db)))
    else 0%nat.
Proof.
  induction l as [|a' l IH]; [done|].
  rewrite fmap_cons, NoDup_cons. intros [Hnotin Hnodup].
  rewrite view_cons, filter_app, length_app, (IH Hnodup).
  destruct (decide (a_id a' = a_id a)) as [Heq|Hne].
  - rewrite Heq in Hnotin |- *.
    rewrite (decide_False (P := a_id a ∈ a_id <$> l)) by done.
    rewrite (decide_True (P := a_id a ∈ a_id a :: (a_id <$> l)))
      by apply list_elem_of_here.
    rewrite Nat.add_0_r.
    rewrite (list_filter_iff _ (λ m, m_article_id m = Some (a_id a)))
      by (intros m; apply metadata_match).
    replace (filter (λ r, v_id r = a_id a) (view_row_of db a' <$> _))
      with (view_row_of db a'
              <$> match filter (λ m, m_article_id m = Some (a_id a))
                          (article_metadata db) with
                  | [] => [None]
                  | matches => Some <$> matches
                  end).
    + rewrite length_fmap.
      destruct (filter _ (article_metadata db)) as [|m ms]; [done|].
      rewrite length_fmap. simpl. lia.
    + generalize (match filter (λ m, m_article_id m = Some (a_id a))
                           (article_metadata db) with
                  | [] => [None]
                  | matches => Some <$> matches
                  end).
      intros ms. induction ms as [|m ms IHms]; [done|].
      csimpl. rewrite filter_cons_True by done. by rewrite <- IHms.
  - replace (filter (λ r, v_id r = a_id a) (view_row_of db a' <$> _))
      with (@nil ViewRow).
    + simpl. destruct (decide (a_id a ∈ a_id <$> l)) as [Hin|Hout].
      * rewrite decide_True; [done | by apply list_elem_of_further].
      * rewrite decide_False; [done|].
        rewrite elem_of_cons. intros [?|?]; done.
    + generalize (match filter (λ m, Sql.eq (Some (a_id a')) (m_article_id m)
                                     = true) (article_metadata db) with
                  | [] => [None]
                  | matches => Some <$> matches
                  end).
      intros ms. induction ms as [|m ms IHms]; [done|].
      csimpl. by rewrite filter_cons_False.
Qed.

(** X17: the view gives an article one row per metadata row that points to
    it, and one row with NULL metadata when none does; the schema does not
    make [article_metadata.article_id] unique, so an article with several
    metadata rows is listed as many times. *)
Theorem rows_per_article (db : Tables) (a : ArticleRow) :
  Sql.unique_column a_id (articles db) → a ∈ articles db →
  let metadata :=
    filter (λ m, m_article_id m = Some (a_id a)) (article_metadata db) in
  length (filter (λ r, v_id r = a_id a) (view_articles_with_references db))
  = Nat.max 1 (length metadata) ∧
  (metadata = [] →
   view_row_of db a None ∈ view_articles_with_references db ∧
   v_word_count (view_row_of db a None) = None ∧
   v_importance_score (view_row_of db a None) = None).
Proof.
  intros Hid Ha. simpl. split.
  - unfold view_articles_with_references. rewrite rows_counted by done.
    rewrite decide_True; [done | by apply list_elem_of_fmap_2].
  - intros Hnone. split; [|done].
    unfold view_articles_with_references.
    apply list_elem_of_bind. exists (a, None). split; [apply list_elem_of_here|].
    unfold Sql.left_join. apply list_elem_of_bind. exists a. split; [|done].
    rewrite (list_filter_iff _ (λ m, m_article_id m = Some (a_id a)))
      by (intros m; apply metadata_match).
    rewrite Hnone. apply list_elem_of_here.
Qed.

Lemma rows_per_article_witness :
  let metadata :=
    filter (λ m, m_article_id m = Some (a_id article1))
      (article_metadata sample) in
  length (filter (λ r, v_id r = a_id article1)
            (view_articles_with_references sample))
  = Nat.max 1 (length metadata) ∧
  (metadata = [] →
   view_row_of sample article1 None ∈ view_articles_with_references sample ∧
   v_word_count (view_row_of sample article1 None) = None ∧
   v_importance_score (view_row_of sample article1 None) = None).
Proof.
  apply (rows_per_article sample article1).
  - apply sample_keys.
  - apply list_elem_of_here.
Defined.

End ViewFacts.

(** ** The views of the courses and of the users *)

Module CourseFacts.
Import Schema Courses.

(** A LEFT JOIN on a key of the right table matches at most one row. *)
Lemma matches_at_most_one {A B K} (on : A → B → bool) (ka : A → option K)
    (kb : B → K) (a : A) (r : list B) :
  (∀ b, on a b = true → ka a = Some (kb b)) →
  NoDup (kb <$> r) →
  (length (filter (λ b, on a b = true) r) ≤ 1)%nat.
Proof.
  intros Hon. induction r as [|b r IH]; [simpl; lia|].
  rewrite fmap_cons, NoDup_cons. intros [Hnotin Hnodup].
  destruct (on a b) eqn:Hb.
  - rewrite filter_cons_True by done.
    replace (filter (λ b, on a b = true) r) with (@nil B); [simpl; lia|].
    symmetry. apply elem_of_nil_inv. intros b' Hb'.
    apply list_elem_of_filter in Hb' as [Hon' Hin].
    apply Hnotin. apply Hon in Hb. apply Hon in Hon'.
    rewrite Hb in Hon'. injection Hon' as ->. by apply list_elem_of_fmap_2.
  - rewrite filter_cons_False by (by rewrite Hb). by apply IH.
Qed.

Lemma left_join_fst {A B K} (on : A → B → bool) (ka : A → option K)
    (kb : B → K) (l : list A) (r : list B) :
  (∀ a b, on a b = true → ka a = Some (kb b)) →
  NoDup (kb <$> r) →
  (Sql.left_join on l r).*1 = l.
Proof.
  intros Hon Hnodup. unfold Sql.left_join.
  induction l as [|a l IH]; [done|].
  rewrite bind_cons, fmap_app, IH.
  pose proof (matches_at_most_one on ka kb a r (Hon a) Hnodup) as Hle.
  destruct (filter (λ b, on a b = true) r) as [|b [|b' bs]]; simpl in *;
    [done | done | lia].
Qed.

Lemma fmap_bind_pair {A B C D} (g : C → D) (h : A → B → C)
    (l : list (A * B)) :
  g <$> (l ≫= λ '(a, b), [h a b]) = (λ x, g (h x.1 x.2)) <$> l.
Proof. induction l as [|[a b] l IH]; [done|]. csimpl. by rewrite IH. Qed.

Lemma fmap_bind_triple {A B C D E} (g : D → E) (h : A → B → C → D)
    (l : list (A * B * C)) :
  g <$> (l ≫= λ '(a, b, c), [h a b c]) = (λ x, g (h x.1.1 x.1.2 x.2)) <$> l.
Proof. induction l as [|[[a b] c] l IH]; [done|]. csimpl. by rewrite IH. Qed.

(** The two views, column by column, on the rows the model lists them in. *)
Lemma view_keys (db : Tables) :
  Sql.unique_column cc_id (course_categories db) →
  Sql.unique_column up_id (user_profiles db) →
  Sql.unique_column ro_id (roles db) →
  cv_course_id <$> view_courses_with_lessons db = co_id <$> courses db ∧
  uv_id <$> view_users_with_permissions db = up_id <$> user_profiles db.
Proof.
  intros Hcc Hup Hro. split.
  - unfold view_courses_with_lessons.
    rewrite (fmap_bind_triple cv_course_id (course_view_of db)).
    transitivity
      (co_id <$>
       (Sql.left_join
          (λ '(c, _) up, Sql.eq (co_instructor_id c) (Some (up_id up)))
          (Sql.left_join (λ c cc, Sql.eq (co_category_id c) (Some (cc_id cc)))
             (courses db) (course_categories db))
          (user_profiles db)).*1.*1).
    + by rewrite <- !list_fmap_compose.
    + rewrite (left_join_fst _ (λ x, co_instructor_id x.1) up_id);
        [|by intros [c cc] up ?%ViewFacts.eq_Some_true | done].
      by rewrite (left_join_fst _ co_category_id cc_id);
        [|by intros c cc ?%ViewFacts.eq_Some_true | done].
  - unfold view_users_with_permissions.
    rewrite (fmap_bind_pair uv_id (user_view_of db)).
    transitivity
      (up_id <$>
       (Sql.left_join (λ u r, Sql.eq (up_role_id u) (Some (ro_id r)))
          (user_profiles db) (roles db)).*1).
    + by rewrite <- !list_fmap_compose.
    + by rewrite (left_join_fst _ up_role_id ro_id);
        [|by intros u r ?%ViewFacts.eq_Some_true | done].
Qed.

(** X18: with the primary keys the schema declares on [course_categories],
    [user_profiles] and [roles], the two views hold every course, and every
    user, exactly once: the LEFT JOINs add no row and drop none, whether or
    not the category, the instructor or the role exists. Neither view has an
    ORDER BY, so the rows may come back in any order: whatever the order,
    the course ids returned are the course ids of the table up to
    rearrangement, and so are the user ids. *)
Theorem views_one_row_each (db : Tables) (course_rows : list CourseView)
    (user_rows : list UserView) :
  Sql.unique_column cc_id (course_categories db) →
  Sql.unique_column up_id (user_profiles db) →
  Sql.unique_column ro_id (roles db) →
  course_rows ≡ₚ view_courses_with_lessons db →
  user_rows ≡ₚ view_users_with_permissions db →
  cv_course_id <$> course_rows ≡ₚ co_id <$> courses db ∧
  uv_id <$> user_rows ≡ₚ up_id <$> user_profiles db.
Proof.
  intros Hcc Hup Hro Hcourses Husers.
  destruct (view_keys db Hcc Hup Hro) as [Hc Hu].
  split.
  - rewrite Hcourses. by rewrite Hc.
  - rewrite Husers. by rewrite Hu.
Qed.

Lemma courses_sample_keys :
  Sql.unique_column cc_id (course_categories sample) ∧
  Sql.unique_column up_id (user_profiles sample) ∧
  Sql.unique_column ro_id (roles sample) ∧
  Sql.unique_column pe_id (permissions sample) ∧
  Sql.unique_column pe_name (permissions sample) ∧
  Sql.unique_column (λ r, (upe_user_id r, upe_permission_id r))
    (user_permissions sample).
Proof.
  unfold Sql.unique_column.
  split_and!; apply (bool_decide_unpack _); by vm_compute.
Qed.

Lemma views_one_row_each_witness :
  cv_course_id <$> reverse (view_courses_with_lessons sample)
    ≡ₚ co_id <$> courses sample ∧
  uv_id <$> reverse (view_users_with_permissions sample)
    ≡ₚ up_id <$> user_profiles sample.
Proof.
  apply (views_one_row_each sample);
    [apply courses_sample_keys | apply courses_sample_keys
    | apply courses_sample_keys | apply reverse_Permutation
    | apply reverse_Permutation].
Defined.

Global Instance by_display_order_total :
  Total (Store.by_key nulls_last le_display_order).
Proof.
  intros x y. unfold Store.by_key.
  destruct (le_display_order x), (le_display_order y); simpl; lia.
Qed.

Lemma course_row (db : Tables) (r : CourseView) :
  r ∈ view_courses_with_lessons db →
  ∃ c, c ∈ courses db ∧ cv_course_id r = co_id c ∧
       cv_enrollment_count r = enrollment_count db c ∧
       cv_lessons r = lessons_of db c.
Proof.
  unfold view_courses_with_lessons. rewrite list_elem_of_bind.
  intros ([[c cc] up] & Hr & Hjoin). apply list_elem_of_singleton in Hr.
  subst r. apply ViewFacts.left_join_left, ViewFacts.left_join_left in Hjoin.
  by exists c.
Qed.

(** X19: the lessons column of every row of the view holds the lessons of
    that course and no other (a lesson without a course is in no row), each
    once, in ascending display order with the lessons that have no display
    order last. *)
Theorem lessons_in_display_order (db : Tables) (r : CourseView) :
  r ∈ view_courses_with_lessons db →
  ∃ c, c ∈ courses db ∧ cv_course_id r = co_id c ∧
       Sorted (Store.by_key nulls_last lo_display_order) (cv_lessons r) ∧
       cv_lessons r ≡ₚ
       lesson_object
       <$> filter (λ l, le_course_id l = Some (co_id c)) (lessons db).
Proof.
  intros Hr. apply course_row in Hr as (c & Hc & Hid & _ & ->).
  exists c. split_and!; try done.
  - unfold lessons_of.
    apply (Sorted_fmap _ (Store.by_key nulls_last le_display_order)); [done|].
    apply Sorted_merge_sort. apply _.
  - unfold lessons_of. rewrite merge_sort_Permutation.
    by rewrite (list_filter_iff _ (λ l, le_course_id l = Some (co_id c)))
      by (intros l; apply ViewFacts.eq_Some_true).
Qed.

Lemma lessons_in_display_order_witness :
  ∃ c, c ∈ courses sample ∧
       cv_course_id (course_view_of sample bidding
                       (Some (mkCourseCategoryRow 1 "Debutant" None (Some 1)
                                None None))
                       (Some teacher)) = co_id c ∧
       Sorted (Store.by_key nulls_last lo_display_order)
         (cv_lessons (course_view_of sample bidding
                        (Some (mkCourseCategoryRow 1 "Debutant" None (Some 1)
                                 None None))
                        (Some teacher))) ∧
       cv_lessons (course_view_of sample bidding
                     (Some (mkCourseCategoryRow 1 "Debutant" None (Some 1)
                              None None))
                     (Some teacher)) ≡ₚ
       lesson_object
       <$> filter (λ l, le_course_id l = Some (co_id c)) (lessons sample).
Proof.
  apply (lessons_in_display_order sample).
  vm_compute. apply list_elem_of_here.
Defined.

Lemma user_row (db : Tables) (r : UserView) :
  r ∈ view_users_with_permissions db →
  ∃ u, u ∈ user_profiles db ∧ uv_id r = up_id u ∧
       uv_permissions r = permissions_of db u.
Proof.
  unfold view_users_with_permissions. rewrite list_elem_of_bind.
  intros ([u ro] & Hr & Hjoin). apply list_elem_of_singleton in Hr.
  subst r. apply ViewFacts.left_join_left in Hjoin. by exists u.
Qed.

(** X20: with the keys the schema declares ([permissions.id] PRIMARY KEY,
    [permissions.name] UNIQUE, PRIMARY KEY (user_id, permission_id) on
    [user_permissions]), no row of the view of the users lists a permission
    twice. *)
Theorem permissions_nodup (db : Tables) (r : UserView) :
  Sql.unique_column pe_id (permissions db) →
  Sql.unique_column pe_name (permissions db) →
  Sql.unique_column (λ r, (upe_user_id r, upe_permission_id r))
    (user_permissions db) →
  r ∈ view_users_with_permissions db →
  NoDup (uv_permissions r).
Proof.
  intros Hid Hname Hpair Hr.
  apply user_row in Hr as (u & _ & _ & ->). unfold permissions_of.
  assert (∀ up y,
            y ∈ (permissions db ≫= λ p,
                   if bool_decide (upe_permission_id up = pe_id p)
                      && bool_decide (upe_user_id up = up_id u)
                   then [pe_name p] else []) →
            ∃ p, p ∈ permissions db ∧ upe_permission_id up = pe_id p ∧
                 upe_user_id up = up_id u ∧ y = pe_name p) as Hinner.
  { intros up y Hy. apply list_elem_of_bind in Hy as (p & Hy & Hp).
    destruct (_ && _) eqn:Hcond; [|by apply elem_of_nil in Hy].
    apply andb_true_iff in Hcond as [H1 H2].
    apply bool_decide_eq_true in H1. apply bool_decide_eq_true in H2.
    apply list_elem_of_singleton in Hy. by exists p. }
  apply NoDup_bind.
  - intros up1 up2 y Hup1 Hup2 Hy1 Hy2.
    apply Hinner in Hy1 as (p1 & Hp1 & Hperm1 & Huser1 & ->).
    apply Hinner in Hy2 as (p2 & Hp2 & Hperm2 & Huser2 & Heq).
    assert (p1 = p2) as <-
      by (by apply (ViewFacts.unique_column_inj pe_name (permissions db))).
    apply (ViewFacts.unique_column_inj _ _ _ _ Hpair); try done.
    by rewrite Hperm1, Hperm2, Huser1, Huser2.
  - intros up _. apply NoDup_bind.
    + intros p1 p2 y Hp1 Hp2 Hy1 Hy2.
      destruct (_ && _); [|by apply elem_of_nil in Hy1].
      destruct (_ && _); [|by apply elem_of_nil in Hy2].
      apply list_elem_of_singleton in Hy1. apply list_elem_of_singleton in Hy2.
      apply (ViewFacts.unique_column_inj pe_name (permissions db)); try done.
      by rewrite <- Hy1, <- Hy2.
    + intros p _. destruct (_ && _); [apply NoDup_singleton | apply NoDup_nil_2].
    + by apply (ViewFacts.unique_column_rows pe_id).
  - by apply (ViewFacts.unique_column_rows
                (λ r, (upe_user_id r, upe_permission_id r))).
Qed.

Lemma permissions_nodup_witness :
  NoDup (uv_permissions (user_view_of sample teacher
                           (Some (mkRoleRow 2 "teacher" None None None)))).
Proof.
  apply (permissions_nodup sample); try apply courses_sample_keys.
  vm_compute. apply list_elem_of_here.
Defined.

End CourseFacts.

(** ** The statistics over the articles *)

Module StatisticsFacts.
Import Schema Statistics.

(** A LEFT JOIN keeps every row of its left side and adds none. *)
Lemma left_join_covers {A B} (on : A → B → bool) (l : list A) (r : list B)
    (a : A) :
  a ∈ l ↔ ∃ m, (a, m) ∈ Sql.left_join on l r.
Proof.
  split.
  - intros Ha. unfold Sql.left_join.
    destruct (filter (λ b, on a b = true) r) as [|b bs] eqn:Hmatches.
    + exists None. apply list_elem_of_bind. exists a. split; [|done].
      rewrite Hmatches. apply list_elem_of_here.
    + exists (Some b). apply list_elem_of_bind. exists a. split; [|done].
      rewrite Hmatches. apply list_elem_of_here.
  - intros [m Hm]. by eapply ViewFacts.left_join_left.
Qed.

(** Its rows with a right side are the pairs that satisfy the condition. *)
Lemma left_join_matched {A B} (on : A → B → bool) (l : list A) (r : list B)
    (a : A) (b : B) :
  (a, Some b) ∈ Sql.left_join on l r ↔ a ∈ l ∧ b ∈ r ∧ on a b = true.
Proof.
  unfold Sql.left_join. rewrite list_elem_of_bind. split.
  - intros (a' & Hin & Ha').
    destruct (filter (λ b, on a' b = true) r) as [|b' bs] eqn:Hmatches.
    + apply list_elem_of_singleton in Hin. done.
    + apply list_elem_of_fmap in Hin as (b'' & Heq & Hb'').
      injection Heq as -> ->. rewrite <- Hmatches in Hb''.
      apply list_elem_of_filter in Hb'' as [Hon Hb]. done.
  - intros (Ha & Hb & Hon). exists a. split; [|done].
    assert (b ∈ filter (λ b, on a b = true) r) as Hin
      by (by apply list_elem_of_filter).
    destruct (filter (λ b, on a b = true) r) as [|b' bs].
    + by apply elem_of_nil in Hin.
    + by apply (list_elem_of_fmap_2 (λ b, (a, Some b))).
Qed.

Lemma omap_id_Some {A B} (f : A → B) (l : list A) :
  omap id ((λ x, Some (f x)) <$> l) = f <$> l.
Proof. induction l as [|x l IH]; [done|]. csimpl. by rewrite IH. Qed.

Lemma count_distinct_length {K} `{EqDecision K} (column : list (option K))
    (values : list K) :
  NoDup values →
  (∀ x, Some x ∈ column ↔ x ∈ values) →
  count_distinct column = length values.
Proof.
  intros Hnodup Hsame. unfold count_distinct.
  apply Permutation_length, NoDup_Permutation; [apply NoDup_remove_dups|done|].
  intros x. rewrite elem_of_remove_dups, list_elem_of_omap, <- Hsame.
  split.
  - intros (o & Ho & <-). done.
  - intros Hx. by exists (Some x).
Qed.

Section Joined.
Variable db : Tables.

(** The articles of the joined rows are the articles of the table. *)
Lemma joined_articles (a : ArticleRow) :
  a ∈ articles db ↔ ∃ j, j ∈ joined db ∧ j_article j = a.
Proof.
  rewrite (left_join_covers on_reference _ (article_references db)).
  split.
  - intros [ar Har].
    apply (left_join_covers on_metadata _ (article_metadata db)) in Har
      as [m Hm].
    apply (left_join_covers on_link _ (article_categories db)) in Hm
      as [ac Hac].
    apply (left_join_covers on_category _ (categories db)) in Hac as [c Hc].
    by exists (a, ar, m, ac, c).
  - intros ([[[[a' ar] m] ac] c] & Hj & <-).
    exists ar. unfold joined in Hj.
    by apply ViewFacts.left_join_left, ViewFacts.left_join_left,
      ViewFacts.left_join_left in Hj.
Qed.

(** The references of the joined rows are the references whose source is an
    article of the table. *)
Lemma joined_references (ar : ReferenceRow) :
  (∃ j, j ∈ joined db ∧ j_reference j = Some ar) ↔
  ar ∈ article_references db ∧
  Exists (λ a, r_source_article_id ar = Some (a_id a)) (articles db).
Proof.
  rewrite Exists_exists. split.
  - intros ([[[[a ar'] m] ac] c] & Hj & Har). unfold j_reference in Har.
    simpl in Har. subst ar'. unfold joined in Hj.
    apply ViewFacts.left_join_left, ViewFacts.left_join_left,
      ViewFacts.left_join_left in Hj.
    apply left_join_matched in Hj as (Ha & Har & Hon).
    split; [done|]. exists a. split; [done|].
    by apply ViewFacts.metadata_match_source.
  - intros (Har & a & Ha & Hsource).
    assert ((a, Some ar) ∈ Sql.left_join on_reference
              (articles db) (article_references db)) as Hj.
    { apply left_join_matched. split_and!; try done.
      by apply ViewFacts.metadata_match_source. }
    apply (left_join_covers on_metadata _ (article_metadata db)) in Hj
      as [m Hm].
    apply (left_join_covers on_link _ (article_categories db)) in Hm
      as [ac Hac].
    apply (left_join_covers on_category _ (categories db)) in Hac as [c Hc].
    by exists (a, Some ar, m, ac, c).
Qed.

End Joined.

(** X21: the four LEFT JOINs of the statistics multiply the rows, and the
    two counts are not affected: with the primary keys of the schema,
    total_articles is the number of articles, and total_references is the
    number of references whose source is an article of the table (a
    reference with a NULL source is not counted). *)
Theorem statistics_counts (db : Tables) :
  Sql.unique_column a_id (articles db) →
  Sql.unique_column r_id (article_references db) →
  total_articles (view_article_statistics db) = length (articles db) ∧
  total_references (view_article_statistics db)
  = length (filter (λ ar, Exists (λ a, r_source_article_id ar = Some (a_id a))
                            (articles db))
              (article_references db)).
Proof.
  intros Ha Hr. simpl. split.
  - rewrite <- (length_fmap a_id (articles db)).
    apply count_distinct_length; [done|].
    intros x. rewrite !list_elem_of_fmap. split.
    + intros (j & [= ->] & Hj). exists (j_article j). split; [done|].
      apply joined_articles. by exists j.
    + intros (a & -> & Hin). apply joined_articles in Hin as (j & Hj & <-).
      by exists j.
  - rewrite <- (length_fmap r_id (filter _ _)).
    apply count_distinct_length.
    + apply NoDup_fmap_2_strong.
      * intros r1 r2 [_ H1]%list_elem_of_filter [_ H2]%list_elem_of_filter.
        by apply (ViewFacts.unique_column_inj r_id (article_references db)).
      * apply NoDup_filter. by apply (ViewFacts.unique_column_rows r_id).
    + intros x. rewrite !list_elem_of_fmap. split.
      * intros (j & Heq & Hj).
        destruct (j_reference j) as [ar|] eqn:Har; [|done].
        simpl in Heq. injection Heq as ->. exists ar. split; [done|].
        apply list_elem_of_filter.
        assert (∃ j, j ∈ joined db ∧ j_reference j = Some ar) as Hex
          by (by exists j).
        apply joined_references in Hex as [? ?]. done.
      * intros (ar & -> & Hin). apply list_elem_of_filter in Hin as [HP Hin].
        destruct (proj2 (joined_references db ar) (conj Hin HP))
          as (j & Hj & Har).
        exists j. by rewrite Har.
Qed.

Lemma statistics_sample_keys :
  Sql.unique_column a_id (articles Statistics.sample) ∧
  Sql.unique_column r_id (article_references Statistics.sample).
Proof.
  unfold Sql.unique_column.
  split; apply (bool_decide_unpack _); by vm_compute.
Qed.

Lemma statistics_counts_witness :
  total_articles (view_article_statistics Statistics.sample)
  = length (articles Statistics.sample) ∧
  total_references (view_article_statistics Statistics.sample)
  = length (filter (λ ar, Exists (λ a, r_source_article_id ar = Some (a_id a))
                            (articles Statistics.sample))
              (article_references Statistics.sample)).
Proof.
  apply (statistics_counts Statistics.sample); apply statistics_sample_keys.
Defined.

Global Instance by_citations_total {A} (key : A → option Z) :
  Total (Store.by_key nulls_first_desc key).
Proof.
  intros x y. unfold Store.by_key.
  destruct (key x), (key y); simpl; lia.
Qed.

Global Instance by_citations_transitive {A} (key : A → option Z) :
  Transitive (Store.by_key nulls_first_desc key).
Proof.
  intros x y z. unfold Store.by_key.
  destruct (key x), (key y), (key z); simpl; try done. lia.
Qed.




End StatisticsFacts.
